(** * ibmhw: a one-slot timestamp service guarded by a capacity-1 channel

    Shallow embedding of [main.go].  The program keeps one [Timestamp] in a
    package-level variable [data], serialises access to it with a buffered
    channel [l] of capacity 1, and exposes it through two HTTP handlers
    ([storeTimestamp], [returnTimestamp]).  [main] starts the server and
    then performs one store/fetch round trip against it.

    The Go standard-library pieces the program calls ([time.Unix],
    [Time.Unix], [strconv], [encoding/json], buffered channels) are
    modelled here at the level of their documented behaviour, specialised
    to the types this program uses. *)

From Stdlib Require Import ZArith NArith Ascii String List Lia Bool.
Import ListNotations.
Local Open Scope Z_scope.
Set Warnings "-register-all".

(** ** Machine integers and byte strings *)

Definition bytes := list ascii.

Definition bytesOf (s : string) : bytes := list_ascii_of_string s.

Definition byteVal (c : ascii) : Z := Z.of_N (N_of_ascii c).

Definition byteOf (z : Z) : ascii := ascii_of_N (Z.to_N z).

(** The double-quote character. *)
Definition dq : ascii := "034"%char.

(** Go's [int64]: arithmetic in [Z] followed by two's-complement wrap. *)
Definition int64 (z : Z) : Z := (z + 2 ^ 63) mod 2 ^ 64 - 2 ^ 63.

Definition uint64 (z : Z) : Z := z mod 2 ^ 64.

Definition inInt64 (z : Z) : Prop := - 2 ^ 63 <= z < 2 ^ 63.

(** ** Package [time] (the part the program uses) *)

Inductive Location := UTC | Local.

(** [time.Time]: [wall] is a [uint64], [ext] an [int64]. *)
Record Time := mkTime { wall : Z; ext : Z; loc : Location }.

Definition secondsPerDay : Z := 86400.

Definition unixToInternal : Z :=
  (1969 * 365 + 1969 / 4 - 1969 / 100 + 1969 / 400) * secondsPerDay.

Definition internalToUnix : Z := - unixToInternal.

Definition wallToInternal : Z :=
  (1884 * 365 + 1884 / 4 - 1884 / 100 + 1884 / 400) * secondsPerDay.

Definition hasMonotonic : Z := 2 ^ 63.

Definition nsecShift : Z := 30.

(** [time.Unix(sec, nsec)]: normalise [nsec] into [0, 1e9) and build the
    wall-clock-only representation in the local zone. *)
Definition time_Unix (sec nsec : Z) : Time :=
  let '(sec, nsec) :=
    if (nsec <? 0) || (1000000000 <=? nsec) then
      let n := Z.quot nsec 1000000000 in
      let sec := int64 (sec + n) in
      let nsec := int64 (nsec - n * 1000000000) in
      if nsec <? 0 then (int64 (sec - 1), int64 (nsec + 1000000000))
      else (sec, nsec)
    else (sec, nsec) in
  mkTime (uint64 nsec) (int64 (sec + unixToInternal)) Local.

(** [t.sec()]: seconds since year 1. *)
Definition Time_sec (t : Time) : Z :=
  if Z.land (wall t) hasMonotonic =? 0 then ext t
  else int64 (wallToInternal
              + Z.shiftr (uint64 (Z.shiftl (wall t) 1)) (nsecShift + 1)).

(** [t.Unix()]. *)
Definition Time_Unix (t : Time) : Z := int64 (Time_sec t + internalToUnix).

(** ** Package [strconv] / the [%d] verb of [fmt] *)

Definition digitChar (d : Z) : ascii := byteOf (48 + d).

Definition isDigit (c : ascii) : bool :=
  (48 <=? byteVal c) && (byteVal c <=? 57).

Definition digitVal (c : ascii) : Z := byteVal c - 48.

(** The digit loop of [strconv.formatBits] for base 10: peel off the
    least significant digit while the value has more than one.  A
    [uint64] has at most 20 decimal digits, hence the bound. *)
Fixpoint formatBits (fuel : nat) (u : Z) (acc : bytes) : bytes :=
  match fuel with
  | O => acc
  | S fuel' =>
      if u <? 10 then digitChar u :: acc
      else formatBits fuel' (u / 10) (digitChar (u mod 10) :: acc)
  end.

(** [strconv.FormatInt(i, 10)], which is also what [%d] prints. *)
Definition FormatInt (i : Z) : bytes :=
  if i <? 0 then "-"%char :: formatBits 20 (- i) []
  else formatBits 20 i [].

(** Digits of [strconv.ParseUint] in base 10, accumulated exactly. *)
Fixpoint parseDigits (s : bytes) (acc : Z) : option Z :=
  match s with
  | [] => Some acc
  | c :: r =>
      if isDigit c then parseDigits r (10 * acc + digitVal c) else None
  end.

(** [strconv.ParseInt(s, 10, 64)]: optional sign, at least one digit,
    nothing but digits, and the value must fit in an [int64].  [None]
    stands for either of its errors (syntax or range). *)
Definition ParseInt (s : bytes) : option Z :=
  let '(neg, body) :=
    match s with
    | c :: r =>
        if (c =? "+")%char then (false, r)
        else if (c =? "-")%char then (true, r)
        else (false, s)
    | [] => (false, s)
    end in
  match body with
  | [] => None
  | _ =>
      match parseDigits body 0 with
      | None => None
      | Some un =>
          if neg then (if un <=? 2 ^ 63 then Some (- un) else None)
          else (if un <? 2 ^ 63 then Some un else None)
      end
  end.

(** ** Package [encoding/json]

    The decoder is modelled in two layers, as the library works: the text
    is first checked against the JSON grammar as a whole, then the value
    is stored into the destination.  Here the first layer produces the
    syntax tree the second one walks. *)

Inductive JValue :=
| JNull
| JBool (b : bool)
| JNumber (lit : bytes)
| JString (s : bytes)
| JArray (elems : list JValue)
| JObject (members : list (bytes * JValue)).

Inductive parsed (A : Type) :=
| POk (a : A)
| PErr
| PFuel.
Arguments POk {A} a.
Arguments PErr {A}.
Arguments PFuel {A}.

Definition isSpace (c : ascii) : bool :=
  (c =? " ")%char || (c =? "009")%char || (c =? "010")%char || (c =? "013")%char.

Fixpoint skipSpace (s : bytes) : bytes :=
  match s with
  | c :: r => if isSpace c then skipSpace r else s
  | [] => []
  end.

Fixpoint stripPrefix (p s : bytes) : option bytes :=
  match p, s with
  | [], _ => Some s
  | a :: p', b :: s' => if (a =? b)%char then stripPrefix p' s' else None
  | _ :: _, [] => None
  end.

Fixpoint takeDigits (s : bytes) : bytes * bytes :=
  match s with
  | c :: r =>
      if isDigit c then let '(ds, r') := takeDigits r in (c :: ds, r')
      else ([], s)
  | [] => ([], [])
  end.

(** The parts of a JSON number, each returning what it takes and the
    rest of the input: an optional minus sign; *)
Definition scanSign (s : bytes) : bytes * bytes :=
  match s with
  | c :: r => if (c =? "-")%char then ([c], r) else ([], s)
  | [] => ([], s)
  end.

(** a single zero, or a non-zero digit followed by any digits; *)
Definition scanInt (s : bytes) : option (bytes * bytes) :=
  match s with
  | c :: r =>
      if (c =? "0")%char then Some ([c], r)
      else if isDigit c then
        let '(ds, r') := takeDigits r in Some (c :: ds, r')
      else None
  | [] => None
  end.

(** optionally a dot and at least one digit; *)
Definition scanFrac (s : bytes) : option (bytes * bytes) :=
  match s with
  | c :: r =>
      if (c =? ".")%char then
        match takeDigits r with
        | ([], _) => None
        | (ds, r') => Some (c :: ds, r')
        end
      else Some ([], s)
  | [] => Some ([], s)
  end.

(** optionally an exponent mark, an optional sign and at least one
    digit. *)
Definition scanExp (s : bytes) : option (bytes * bytes) :=
  match s with
  | c :: r =>
      if (c =? "e")%char || (c =? "E")%char then
        let '(sg, r1) :=
          match r with
          | c' :: r'' =>
              if (c' =? "+")%char || (c' =? "-")%char
              then ([c'], r'') else ([], r)
          | [] => ([], r)
          end in
        match takeDigits r1 with
        | ([], _) => None
        | (ds, r2) => Some (c :: sg ++ ds, r2)
        end
      else Some ([], s)
  | [] => Some ([], s)
  end.

(** A JSON number.  Returns the literal and the rest of the input. *)
Definition scanNumber (s : bytes) : option (bytes * bytes) :=
  let '(sign, s0) := scanSign s in
  match scanInt s0 with
  | None => None
  | Some (ip, s1) =>
      match scanFrac s1 with
      | None => None
      | Some (fp, s2) =>
          match scanExp s2 with
          | None => None
          | Some (ep, s3) => Some (sign ++ ip ++ fp ++ ep, s3)
          end
      end
  end.

(** [utf8.EncodeRune]. *)
Definition utf8Encode (r : Z) : bytes :=
  let r := if ((0xD800 <=? r) && (r <=? 0xDFFF)) || (0x10FFFF <? r) || (r <? 0)
           then 0xFFFD else r in
  if r <? 0x80 then [byteOf r]
  else if r <? 0x800 then
    [byteOf (0xC0 + r / 64); byteOf (0x80 + r mod 64)]
  else if r <? 0x10000 then
    [byteOf (0xE0 + r / 4096); byteOf (0x80 + (r / 64) mod 64);
     byteOf (0x80 + r mod 64)]
  else
    [byteOf (0xF0 + r / 262144); byteOf (0x80 + (r / 4096) mod 64);
     byteOf (0x80 + (r / 64) mod 64); byteOf (0x80 + r mod 64)].

(** The bytes of U+FFFD, which replace whatever is not valid text. *)
Definition replacement : bytes := utf8Encode 0xFFFD.

Definition inRange (lo hi : Z) (c : ascii) : bool :=
  (lo <=? byteVal c) && (byteVal c <=? hi).

Definition isCont : ascii -> bool := inRange 0x80 0xBF.

(** [utf8.DecodeRune], reduced to the width of the encoding at the head
    of [s]; [0] when the head is not a valid encoding. *)
Definition runeLen (s : bytes) : nat :=
  match s with
  | [] => 0%nat
  | c0 :: t =>
      let two := match t with c1 :: _ => isCont c1 | _ => false end in
      let three lo hi :=
        match t with
        | c1 :: c2 :: _ => inRange lo hi c1 && isCont c2
        | _ => false
        end in
      let four lo hi :=
        match t with
        | c1 :: c2 :: c3 :: _ => inRange lo hi c1 && isCont c2 && isCont c3
        | _ => false
        end in
      if byteVal c0 <? 0x80 then 1%nat
      else if inRange 0xC2 0xDF c0 then (if two then 2%nat else 0%nat)
      else if inRange 0xE0 0xE0 c0 then (if three 0xA0 0xBF then 3%nat else 0%nat)
      else if inRange 0xE1 0xEC c0 then (if three 0x80 0xBF then 3%nat else 0%nat)
      else if inRange 0xED 0xED c0 then (if three 0x80 0x9F then 3%nat else 0%nat)
      else if inRange 0xEE 0xEF c0 then (if three 0x80 0xBF then 3%nat else 0%nat)
      else if inRange 0xF0 0xF0 c0 then (if four 0x90 0xBF then 4%nat else 0%nat)
      else if inRange 0xF1 0xF3 c0 then (if four 0x80 0xBF then 4%nat else 0%nat)
      else if inRange 0xF4 0xF4 c0 then (if four 0x80 0x8F then 4%nat else 0%nat)
      else 0%nat
  end.

Definition hexVal (c : ascii) : option Z :=
  if isDigit c then Some (byteVal c - 48)
  else if inRange 97 102 c then Some (byteVal c - 87)
  else if inRange 65 70 c then Some (byteVal c - 55)
  else None.

Definition hex4 (h1 h2 h3 h4 : ascii) : option Z :=
  match hexVal h1, hexVal h2, hexVal h3, hexVal h4 with
  | Some a, Some b, Some c, Some d => Some (((a * 16 + b) * 16 + c) * 16 + d)
  | _, _, _, _ => None
  end.

Definition simpleEscape (e : ascii) : option ascii :=
  if (e =? dq)%char || (e =? "\")%char || (e =? "/")%char then Some e
  else if (e =? "b")%char then Some "008"%char
  else if (e =? "f")%char then Some "012"%char
  else if (e =? "n")%char then Some "010"%char
  else if (e =? "r")%char then Some "013"%char
  else if (e =? "t")%char then Some "009"%char
  else None.

Definition isHighSurrogate (r : Z) : bool := (0xD800 <=? r) && (r <? 0xDC00).
Definition isLowSurrogate (r : Z) : bool := (0xDC00 <=? r) && (r <? 0xE000).

(** The output so far is kept reversed; [pend] is a high surrogate read
    from a [\u] escape that still waits for its low half. *)
Definition flushPending (pend : option Z) (acc : bytes) : bytes :=
  match pend with
  | Some _ => rev_append replacement acc
  | None => acc
  end.

Definition pushEscapedRune (rr : Z) (pend : option Z) (acc : bytes)
  : option Z * bytes :=
  match pend with
  | Some hi =>
      if isLowSurrogate rr then
        (None,
         rev_append
           (utf8Encode (0x10000 + (hi - 0xD800) * 1024 + (rr - 0xDC00))) acc)
      else if isHighSurrogate rr then (Some rr, rev_append replacement acc)
      else (None, rev_append (utf8Encode rr) (rev_append replacement acc))
  | None =>
      if isHighSurrogate rr then (Some rr, acc)
      else if isLowSurrogate rr then (None, rev_append replacement acc)
      else (None, rev_append (utf8Encode rr) acc)
  end.

(** The body of a string literal, after its opening quote: checks it as
    the scanner does and unquotes it as [unquoteBytes] does.  [copy]
    counts the continuation bytes of a rune already found valid. *)
Fixpoint scanString (s : bytes) (pend : option Z) (copy : nat) (acc : bytes)
  : option (bytes * bytes) :=
  match s with
  | [] => None
  | c :: r =>
      match copy with
      | S k => scanString r pend k (c :: acc)
      | O =>
          if (c =? dq)%char then Some (rev (flushPending pend acc), r)
          else if (c =? "\")%char then
            match r with
            | [] => None
            | e :: r1 =>
                match simpleEscape e with
                | Some x => scanString r1 None 0 (x :: flushPending pend acc)
                | None =>
                    if (e =? "u")%char then
                      match r1 with
                      | h1 :: h2 :: h3 :: h4 :: r2 =>
                          match hex4 h1 h2 h3 h4 with
                          | Some rr =>
                              let '(pend', acc') :=
                                pushEscapedRune rr pend acc in
                              scanString r2 pend' 0 acc'
                          | None => None
                          end
                      | _ => None
                      end
                    else None
                end
            end
          else if byteVal c <? 0x20 then None
          else if byteVal c <? 0x80 then
            scanString r None 0 (c :: flushPending pend acc)
          else
            match runeLen s with
            | O => scanString r None 0
                     (rev_append replacement (flushPending pend acc))
            | S k => scanString r None k (c :: flushPending pend acc)
            end
      end
  end.

Definition maxNestingDepth : Z := 10000.

(** One value at the head of [s] (no leading space), and what follows
    it.  [depth] is the number of enclosing arrays and objects. *)
Fixpoint parseValue (fuel : nat) (depth : Z) (s : bytes)
  : parsed (JValue * bytes) :=
  match fuel with
  | O => PFuel
  | S fuel' =>
      match s with
      | [] => PErr
      | c :: r =>
          if (c =? "{")%char then
            if maxNestingDepth <? depth + 1 then PErr
            else
              match skipSpace r with
              | [] => PErr
              | c1 :: r1 =>
                  if (c1 =? "}")%char then POk (JObject [], r1)
                  else parseMembers fuel' (depth + 1) (c1 :: r1) []
              end
          else if (c =? "[")%char then
            if maxNestingDepth <? depth + 1 then PErr
            else
              match skipSpace r with
              | [] => PErr
              | c1 :: r1 =>
                  if (c1 =? "]")%char then POk (JArray [], r1)
                  else
                    match parseValue fuel' (depth + 1) (c1 :: r1) with
                    | POk (v, r2) => parseElems fuel' (depth + 1) r2 [v]
                    | PErr => PErr
                    | PFuel => PFuel
                    end
              end
          else if (c =? dq)%char then
            match scanString r None 0 [] with
            | Some (str, r1) => POk (JString str, r1)
            | None => PErr
            end
          else if (c =? "t")%char then
            match stripPrefix (bytesOf "rue") r with
            | Some r1 => POk (JBool true, r1)
            | None => PErr
            end
          else if (c =? "f")%char then
            match stripPrefix (bytesOf "alse") r with
            | Some r1 => POk (JBool false, r1)
            | None => PErr
            end
          else if (c =? "n")%char then
            match stripPrefix (bytesOf "ull") r with
            | Some r1 => POk (JNull, r1)
            | None => PErr
            end
          else
            match scanNumber s with
            | Some (lit, r1) => POk (JNumber lit, r1)
            | None => PErr
            end
      end
  end

(** The members of an object from a key on; [acc] holds, reversed, the
    members already read. *)
with parseMembers (fuel : nat) (depth : Z) (s : bytes)
                  (acc : list (bytes * JValue))
  : parsed (JValue * bytes) :=
  match fuel with
  | O => PFuel
  | S fuel' =>
      match s with
      | [] => PErr
      | c :: r =>
          if (c =? dq)%char then
            match scanString r None 0 [] with
            | None => PErr
            | Some (key, r1) =>
                match skipSpace r1 with
                | [] => PErr
                | c2 :: r2 =>
                    if (c2 =? ":")%char then
                      match parseValue fuel' depth (skipSpace r2) with
                      | POk (v, r3) =>
                          match skipSpace r3 with
                          | [] => PErr
                          | c4 :: r4 =>
                              if (c4 =? ",")%char then
                                parseMembers fuel' depth (skipSpace r4)
                                             ((key, v) :: acc)
                              else if (c4 =? "}")%char then
                                POk (JObject (rev ((key, v) :: acc)), r4)
                              else PErr
                          end
                      | PErr => PErr
                      | PFuel => PFuel
                      end
                    else PErr
                end
            end
          else PErr
      end
  end

(** The rest of an array after one of its elements. *)
with parseElems (fuel : nat) (depth : Z) (s : bytes) (acc : list JValue)
  : parsed (JValue * bytes) :=
  match fuel with
  | O => PFuel
  | S fuel' =>
      match skipSpace s with
      | [] => PErr
      | c :: r =>
          if (c =? ",")%char then
            match parseValue fuel' depth (skipSpace r) with
            | POk (v, r1) => parseElems fuel' depth r1 (v :: acc)
            | PErr => PErr
            | PFuel => PFuel
            end
          else if (c =? "]")%char then POk (JArray (rev acc), r)
          else PErr
      end
  end.

(** Go's [error] values, as far as this program tells them apart. *)
Inductive error :=
| SyntaxError
| UnmarshalTypeError (value : bytes)
| TransportError
| UnexpectedStatus.

(** [checkValid] and the walk over the text: the whole input must be one
    JSON value surrounded by optional space.  A value over [s] makes
    fewer than [length s] nested calls, so the fuel never runs out
    (lemma [parseValue_fuel]). *)
Definition parseJSON (data : bytes) : option JValue :=
  let s := skipSpace data in
  match parseValue (S (length s)) 0 s with
  | POk (v, rest) =>
      match skipSpace rest with
      | [] => Some v
      | _ :: _ => None
      end
  | _ => None
  end.

(** The bytes of the top-level value alone, which the decoder hands to
    an [Unmarshaler] ([d.data[start:d.off]]). *)
Definition valueSlice (data : bytes) : bytes :=
  let s := skipSpace data in
  match parseValue (S (length s)) 0 s with
  | POk (_, rest) => firstn (length s - length rest) s
  | _ => []
  end.

(** [utf8.DecodeRune]: the rune at the head and its width;
    [(RuneError, 1)] when the head is not a valid encoding. *)
Definition decodeRune (s : bytes) : Z * nat :=
  match runeLen s, s with
  | 1%nat, c0 :: _ => (byteVal c0, 1%nat)
  | 2%nat, c0 :: c1 :: _ =>
      ((byteVal c0 mod 32) * 64 + byteVal c1 mod 64, 2%nat)
  | 3%nat, c0 :: c1 :: c2 :: _ =>
      (((byteVal c0 mod 16) * 64 + byteVal c1 mod 64) * 64
       + byteVal c2 mod 64, 3%nat)
  | 4%nat, c0 :: c1 :: c2 :: c3 :: _ =>
      ((((byteVal c0 mod 8) * 64 + byteVal c1 mod 64) * 64
        + byteVal c2 mod 64) * 64 + byteVal c3 mod 64, 4%nat)
  | _, _ => (0xFFFD, 1%nat)
  end.

(** [b & caseMask], with [caseMask = ^byte(0x20)]. *)
Definition caseMasked (c : ascii) : Z := Z.land (byteVal c) 0xDF.

Definition smallLongEss : Z := 0x17F.
Definition kelvin : Z := 0x212A.

(** [equalFoldRight(s, t)] of [encoding/json/fold.go]: the comparison
    the decoder uses for a field name [s] that contains an [s] or a [k];
    [t] is the key read from the input. *)
Fixpoint equalFoldRight (s t : bytes) : bool :=
  match s with
  | [] => match t with [] => true | _ :: _ => false end
  | sb :: s' =>
      match t with
      | [] => false
      | tb :: t' =>
          if byteVal tb <? 0x80 then
            if (sb =? tb)%char then equalFoldRight s' t'
            else
              let sbUpper := caseMasked sb in
              if (65 <=? sbUpper) && (sbUpper <=? 90) then
                if sbUpper =? caseMasked tb then equalFoldRight s' t'
                else false
              else false
          else
            let '(tr, size) := decodeRune t in
            if (sb =? "s")%char || (sb =? "S")%char then
              if tr =? smallLongEss then equalFoldRight s' (skipn size t)
              else false
            else if (sb =? "k")%char || (sb =? "K")%char then
              if tr =? kelvin then equalFoldRight s' (skipn size t)
              else false
            else false
      end
  end.

Fixpoint bytes_eqb (a b : bytes) : bool :=
  match a, b with
  | [], [] => true
  | x :: a', y :: b' => (x =? y)%char && bytes_eqb a' b'
  | _, _ => false
  end.

(** A key selects a struct field by its exact name or, failing that,
    by the case-folding comparison. *)
Definition matchesField (name key : bytes) : bool :=
  bytes_eqb key name || equalFoldRight name key.

(** [d.saveError]: only the first error is kept, decoding goes on. *)
Definition saveError (saved : option error) (e : error) : option error :=
  match saved with
  | Some _ => saved
  | None => Some e
  end.

(** Storing a JSON value into an [int64] field. *)
Definition storeInt64 (v : JValue) (cur : Z) (saved : option error)
  : Z * option error :=
  match v with
  | JNull => (cur, saved)
  | JNumber lit =>
      match ParseInt lit with
      | Some n => (n, saved)
      | None =>
          (cur, saveError saved (UnmarshalTypeError (bytesOf "number " ++ lit)))
      end
  | JBool _ => (cur, saveError saved (UnmarshalTypeError (bytesOf "bool")))
  | JString _ => (cur, saveError saved (UnmarshalTypeError (bytesOf "string")))
  | JArray _ => (cur, saveError saved (UnmarshalTypeError (bytesOf "array")))
  | JObject _ => (cur, saveError saved (UnmarshalTypeError (bytesOf "object")))
  end.

(** ** The program's types *)

(** A pointer is [None] for [nil] or the address of a cell of the heap
    of [time.Time] values. *)
Definition ptr := option nat.

(** Internal data representation of data need to be stored. *)
Record Timestamp := mkTimestamp { timestamp : ptr }.

(** External data representation: type used in REST communication.
    Its only field is [Timestamp int64], tagged [json:"timestamp"]. *)
Record TimestampJson := mkTimestampJson { TimestampJson_Timestamp : Z }.

(** [Response{Response string}], tagged [json:"response"]. *)
Record Response := mkResponse { Response_Response : bytes }.

Definition initialUnixTimestamp : Z := 1622366082.

Definition now : Time := time_Unix initialUnixTimestamp 0.

(** *** [encoding/json] at the program's types *)

Fixpoint decodeMembers (ms : list (bytes * JValue)) (raw : TimestampJson)
                       (saved : option error) : TimestampJson * option error :=
  match ms with
  | [] => (raw, saved)
  | (key, v) :: ms' =>
      if matchesField (bytesOf "timestamp") key then
        let '(n, saved') := storeInt64 v (TimestampJson_Timestamp raw) saved in
        decodeMembers ms' (mkTimestampJson n) saved'
      else decodeMembers ms' raw saved
  end.

(** Storing a JSON value into a [TimestampJson]. *)
Definition decodeTimestampJson (v : JValue) (raw : TimestampJson)
  : TimestampJson * option error :=
  match v with
  | JObject ms => decodeMembers ms raw None
  | JNull => (raw, None)
  | JBool _ => (raw, Some (UnmarshalTypeError (bytesOf "bool")))
  | JNumber _ => (raw, Some (UnmarshalTypeError (bytesOf "number")))
  | JString _ => (raw, Some (UnmarshalTypeError (bytesOf "string")))
  | JArray _ => (raw, Some (UnmarshalTypeError (bytesOf "array")))
  end.

(** [json.Unmarshal(data, &raw)] for [raw : TimestampJson]. *)
Definition json_Unmarshal_TimestampJson (data : bytes) (raw : TimestampJson)
  : TimestampJson * option error :=
  match parseJSON data with
  | None => (raw, Some SyntaxError)
  | Some v => decodeTimestampJson v raw
  end.

(** [json.Marshal(TimestampJson{...})]. *)
Definition json_Marshal_TimestampJson (v : TimestampJson) : bytes :=
  "{"%char :: dq :: bytesOf "timestamp" ++ dq :: ":"%char
  :: FormatInt (TimestampJson_Timestamp v) ++ ["}"%char].

(** [json.Marshal(Response{...})], for texts that need no escaping, as
    the two this program sends. *)
Definition json_Marshal_Response (v : Response) : bytes :=
  "{"%char :: dq :: bytesOf "response" ++ dq :: ":"%char :: dq
  :: Response_Response v ++ [dq; "}"%char].

(** ** Program state and control outcomes *)

(** The package-level variables: [now] lives in cell 0 of [heap],
    [data] holds a pointer into it, [l] is the buffer of the channel
    [make(chan int, 1)].  [assignments] is a ghost counter: it counts
    the executions of [data = newValue] and is read by no code. *)
Record State := mkState {
  heap : list Time;
  data : Timestamp;
  l : list Z;
  assignments : nat
}.

Definition initialState : State :=
  mkState [now] (mkTimestamp (Some 0%nat)) [] 0.

Definition withHeap (h : list Time) (s : State) : State :=
  mkState h (data s) (l s) (assignments s).

Definition withChan (q : list Z) (s : State) : State :=
  mkState (heap s) (data s) q (assignments s).

Definition assign (newValue : Timestamp) (s : State) : State :=
  mkState (heap s) newValue (l s) (S (assignments s)).

(** How a call ends: with a result, waiting on a channel for ever, or
    in a run-time panic (a nil dereference). *)
Inductive outcome (A : Type) :=
| Done (a : A)
| Blocked
| Panic.
Arguments Done {A} a.
Arguments Blocked {A}.
Arguments Panic {A}.

Definition bind {A B : Type} (m : outcome A) (k : A -> outcome B)
  : outcome B :=
  match m with
  | Done a => k a
  | Blocked => Blocked
  | Panic => Panic
  end.

Notation "x <- m ;; k" := (bind m (fun x => k))
  (at level 61, m at next level, right associativity).
Notation "' p <- m ;; k" := (bind m (fun x => let 'p := x in k))
  (at level 61, p pattern, m at next level, right associativity).

(** *** Buffered channel of capacity 1 *)

Definition chanCap : nat := 1.

(** [l <- v]: proceeds when the buffer has room. *)
Definition send (v : Z) (s : State) : outcome State :=
  if (length (l s) <? chanCap)%nat then Done (withChan (l s ++ [v]) s)
  else Blocked.

(** [<-l]: proceeds when the buffer holds a value. *)
Definition recv (s : State) : outcome (Z * State) :=
  match l s with
  | [] => Blocked
  | v :: q => Done (v, withChan q s)
  end.

(** ** Methods of [Timestamp] *)

Definition deref (h : list Time) (p : ptr) : outcome Time :=
  match p with
  | None => Panic
  | Some a =>
      match nth_error h a with
      | Some t => Done t
      | None => Panic
      end
  end.

Definition MarshalJSON (h : list Time) (t : Timestamp)
  : outcome (bytes * option error) :=
  tm <- deref h (timestamp t) ;;
  Done (json_Marshal_TimestampJson (mkTimestampJson (Time_Unix tm)), None).

(** The receiver [t *Timestamp] is passed in and handed back; [tmp]
    escapes to a fresh heap cell. *)
Definition UnmarshalJSON (h : list Time) (t : Timestamp) (b : bytes)
  : list Time * Timestamp * option error :=
  let '(raw, err) := json_Unmarshal_TimestampJson b (mkTimestampJson 0) in
  match err with
  | Some e => (h, t, Some e)
  | None =>
      let tmp := time_Unix (TimestampJson_Timestamp raw) 0 in
      (h ++ [tmp], mkTimestamp (Some (length h)), None)
  end.

(** [json.Unmarshal(data, &t)] for [t : Timestamp]: once the text is
    valid JSON, whatever the value is goes to [t.UnmarshalJSON]. *)
Definition json_Unmarshal_Timestamp (h : list Time) (body : bytes)
                                    (t : Timestamp)
  : list Time * Timestamp * option error :=
  match parseJSON body with
  | None => (h, t, Some SyntaxError)
  | Some _ => UnmarshalJSON h t (valueSlice body)
  end.

(** ** The guarded cell *)

Definition getData (s : State) : outcome (State * Timestamp) :=
  s1 <- send 1 s ;;
  let result := data s1 in
  '(_, s2) <- recv s1 ;;
  Done (s2, result).

Definition setData (newValue : Timestamp) (s : State) : outcome State :=
  s1 <- send 1 s ;;
  let s2 := assign newValue s1 in
  '(_, s3) <- recv s2 ;;
  Done s3.

(** ** HTTP handlers *)

Record HttpResponse := mkHttpResponse { StatusCode : Z; RespBody : bytes }.

Definition StatusOK : Z := 200.
Definition StatusNotFound : Z := 404.
Definition StatusMethodNotAllowed : Z := 405.
Definition StatusInternalServerError : Z := 500.

Definition newline : ascii := "010"%char.

(** [json.NewEncoder(w).Encode(v)] writes the encoding and a newline. *)
Definition returnTimestamp (s : State) : outcome (State * HttpResponse) :=
  '(s1, t) <- getData s ;;
  '(b, _) <- MarshalJSON (heap s1) t ;;
  Done (s1, mkHttpResponse StatusOK (b ++ [newline])).

Definition parseErrorText : bytes :=
  bytesOf "Unable to parse POST payload as a valid json value.".

(** [http.Error(w, msg, code)] writes [msg] and a newline. *)
Definition http_Error (msg : bytes) (code : Z) : HttpResponse :=
  mkHttpResponse code (msg ++ [newline]).

Definition storeTimestamp (reqBody : bytes) (s : State)
  : outcome (State * HttpResponse) :=
  let '(h, newData, err) :=
    json_Unmarshal_Timestamp (heap s) reqBody (mkTimestamp None) in
  match err with
  | Some _ =>
      let errorMessage := json_Marshal_Response (mkResponse parseErrorText) in
      Done (withHeap h s, http_Error errorMessage StatusInternalServerError)
  | None =>
      s' <- setData newData (withHeap h s) ;;
      Done (s', mkHttpResponse StatusOK
                  (json_Marshal_Response (mkResponse (bytesOf "OK"))
                   ++ [newline]))
  end.

(** *** The router of [handleRequests]

    A request to the path [/timestamp]; both routes ask for the header
    [Content-Type: text/plain].  What matches no route gets the
    router's own reply. *)
Inductive Method := GET | POST | OtherMethod.

Record Request := mkRequest {
  reqMethod : Method;
  reqContentType : bytes;
  reqBody : bytes
}.

Definition handleRequests (r : Request) (s : State)
  : outcome (State * HttpResponse) :=
  if bytes_eqb (reqContentType r) (bytesOf "text/plain") then
    match reqMethod r with
    | POST => storeTimestamp (reqBody r) s
    | GET => returnTimestamp s
    | OtherMethod => Done (s, mkHttpResponse StatusMethodNotAllowed [])
    end
  else
    Done (s, http_Error (bytesOf "404 page not found") StatusNotFound).

(** ** The client side *)

(** What the network does to one call. *)
Inductive Net := Delivered | SendFails | ReadFails.

(** What the client gets back: an error from the call itself, a
    response whose body cannot be read, or a response. *)
Inductive Reply :=
| CallError
| BodyError (code : Z)
| Answer (resp : HttpResponse).

(** A panicking handler is recovered by the server, which drops the
    connection; the only handler that can panic, [returnTimestamp], has
    by then put the state back as it found it. *)
Definition roundTrip (n : Net) (r : Request) (s : State)
  : outcome (State * Reply) :=
  match n with
  | SendFails => Done (s, CallError)
  | _ =>
      match handleRequests r s with
      | Done (s', resp) =>
          match n with
          | ReadFails => Done (s', BodyError (StatusCode resp))
          | _ => Done (s', Answer resp)
          end
      | Blocked => Blocked
      | Panic => Done (s, CallError)
      end
  end.

(** The body [fmt.Sprintf] builds from the format
    [{"timestamp" : %d}]. *)
Definition setTimestampBody (newTimeStamp : Z) : bytes :=
  "{"%char :: dq :: bytesOf "timestamp" ++ dq :: bytesOf " : "
  ++ FormatInt newTimeStamp ++ ["}"%char].

(** Call REST endpoint to set current timestamp value.  The [*string]
    result is [None] for [nil]. *)
Definition setTimestampCall (newTimeStamp : Z) (n : Net) (s : State)
  : outcome (State * (option bytes * option error)) :=
  let body := setTimestampBody newTimeStamp in
  '(s', reply) <- roundTrip n (mkRequest POST (bytesOf "text/plain") body) s ;;
  match reply with
  | CallError => Done (s', (None, Some TransportError))
  | BodyError _ => Done (s', (None, Some TransportError))
  | Answer response =>
      let responseBody := RespBody response in
      if negb (StatusCode response =? StatusOK) then
        Done (s', (Some responseBody, Some UnexpectedStatus))
      else Done (s', (Some responseBody, None))
  end.

(** Call REST endpoint to get current timestamp value.  The [*int64]
    result is [None] for [nil]. *)
Definition getTimestampCall (n : Net) (s : State)
  : outcome (State * (option Z * option error)) :=
  '(s', reply) <- roundTrip n (mkRequest GET (bytesOf "text/plain") []) s ;;
  match reply with
  | CallError => Done (s', (None, Some TransportError))
  | BodyError _ => Done (s', (None, Some TransportError))
  | Answer response =>
      let r := RespBody response in
      let '(ts, err) := json_Unmarshal_TimestampJson r (mkTimestampJson 0) in
      match err with
      | Some e => Done (s', (None, Some e))
      | None => Done (s', (Some (TimestampJson_Timestamp ts), None))
      end
  end.

(** ** [main] *)

Record Process := mkProcess { server : State; stdout : bytes }.

Definition initialProcess : Process := mkProcess initialState [].

(** Where [main] ends up: at [<-c], waiting for the web server to
    finish; stopped by a nil dereference; or stuck in a call the server
    never answers. *)
Inductive Exit := WaitsForServer | NilDereference | CallHangs.

(** [fmt.Println] of an [int64]. *)
Definition Println (v : Z) : bytes := FormatInt v ++ [newline].

(** [nowUnix] is [time.Now().Unix()]; [n1] and [n2] say how the two
    calls fare on the network.  Both error results are dropped. *)
Definition main (nowUnix : Z) (n1 n2 : Net) (p : Process) : Process * Exit :=
  match setTimestampCall nowUnix n1 (server p) with
  | Done (s1, _) =>
      match getTimestampCall n2 s1 with
      | Done (s2, (ts, _)) =>
          match ts with
          | None => (mkProcess s2 (stdout p), NilDereference)
          | Some v =>
              (mkProcess s2 (stdout p ++ Println v), WaitsForServer)
          end
      | _ => (mkProcess s1 (stdout p), CallHangs)
      end
  | _ => (p, CallHangs)
  end.

(** ** Concurrent callers of the guarded cell

    Each in-flight call of [getData] or [setData] is a goroutine at one
    of four points; the scheduler picks any goroutine that can move. *)
Inductive Call :=
| CallGetData
| CallSetData (newValue : Timestamp).

Inductive PC :=
| AtEntry
| InBody
| AtDefer (result : option Timestamp)
| Returned (result : option Timestamp).

Record Goroutine := mkGoroutine { call : Call; pc : PC }.

(** One step of one goroutine: the send, the body, or the deferred
    receive. *)
Definition gstep (g : Goroutine) (s : State) : outcome (Goroutine * State) :=
  match pc g with
  | AtEntry =>
      s' <- send 1 s ;;
      Done (mkGoroutine (call g) InBody, s')
  | InBody =>
      match call g with
      | CallGetData =>
          Done (mkGoroutine (call g) (AtDefer (Some (data s))), s)
      | CallSetData newValue =>
          Done (mkGoroutine (call g) (AtDefer None), assign newValue s)
      end
  | AtDefer r =>
      '(_, s') <- recv s ;;
      Done (mkGoroutine (call g) (Returned r), s')
  | Returned _ => Blocked
  end.

Record World := mkWorld { shared : State; pool : list Goroutine }.

Definition initialWorld : World := mkWorld initialState [].

Inductive step : World -> World -> Prop :=
| step_spawn : forall s gs c,
    step (mkWorld s gs) (mkWorld s (gs ++ [mkGoroutine c AtEntry]))
| step_run : forall s s' pre g g' post,
    gstep g s = Done (g', s') ->
    step (mkWorld s (pre ++ g :: post)) (mkWorld s' (pre ++ g' :: post)).

Inductive reachable : World -> Prop :=
| reachable_init : reachable initialWorld
| reachable_step : forall w w', reachable w -> step w w' -> reachable w'.

(** Inside the critical section: the permit is taken and not yet given
    back. *)
Definition inside (g : Goroutine) : bool :=
  match pc g with
  | InBody | AtDefer _ => true
  | AtEntry | Returned _ => false
  end.

Definition holders (gs : list Goroutine) : nat :=
  length (filter inside gs).

(** The two states of the permit pool, read off the channel buffer. *)
Inductive Permit := FREE | HELD.

Definition permit (s : State) : option Permit :=
  match l s with
  | [] => Some FREE
  | [_] => Some HELD
  | _ => None
  end.

(** ** Sequences of requests served one after another *)

Fixpoint serveAll (rs : list Request) (s : State) : outcome State :=
  match rs with
  | [] => Done s
  | r :: rs' =>
      '(s', _) <- handleRequests r s ;;
      serveAll rs' s'
  end.

(** ** Vocabulary of the properties *)

(** [ds] is the decimal numeral of [u]: digits only, at least one, no
    leading zero, and read back as [u]. *)
Definition decimalOf (u : Z) (ds : bytes) : Prop :=
  ds <> []
  /\ forallb isDigit ds = true
  /\ (forall a, parseDigits ds a = Some (a * 10 ^ Z.of_nat (length ds) + u))
  /\ (forall tl, ds = "0"%char :: tl -> tl = []).

(** The bytes a JSON number can start with: a digit or the minus
    sign. *)
Definition startsNumber (c : ascii) : bool := isDigit c || (c =? "-")%char.

(** An object with the single member [timestamp], with space [sp1]
    before the colon and [sp2] after it. *)
Definition timestampObject (sp1 sp2 : bytes) (x : Z) : bytes :=
  "{"%char :: dq :: bytesOf "timestamp" ++ dq :: sp1 ++ ":"%char :: sp2
  ++ FormatInt x ++ ["}"%char].

(** A result that is not a shortage of fuel and, when it is a value,
    leaves a rest no longer than the input. *)
Definition settled (p : parsed (JValue * bytes)) (s : bytes) : Prop :=
  p <> PFuel /\ forall v r, p = POk (v, r) -> (length r <= length s)%nat.

(** The head of [t], if any, fails the test [f]. *)
Definition headNot (f : ascii -> bool) (t : bytes) : bool :=
  match t with
  | [] => true
  | c :: _ => negb (f c)
  end.

(** A byte that could continue a number. *)
Definition continuesNumber (c : ascii) : bool :=
  isDigit c || (c =? ".")%char || (c =? "e")%char || (c =? "E")%char.

(** What may follow a value without changing how it reads: the end of
    the input or a byte that cannot continue a number. *)
Definition stops (t : bytes) : bool := headNot continuesNumber t.

(** What [storeTimestamp] answers when it has stored the value. *)
Definition okResponse : HttpResponse :=
  mkHttpResponse StatusOK
    (json_Marshal_Response (mkResponse (bytesOf "OK")) ++ [newline]).

(** What [storeTimestamp] answers when the body does not decode. *)
Definition rejection : HttpResponse :=
  http_Error (json_Marshal_Response (mkResponse parseErrorText))
             StatusInternalServerError.

(** The state [storeTimestamp] leaves after accepting the second count
    [x]: a fresh cell holding [time.Unix(x, 0)], and [data] pointing to
    it. *)
Definition stored (x : Z) (s : State) : State :=
  assign (mkTimestamp (Some (length (heap s))))
         (withHeap (heap s ++ [time_Unix x 0]) s).

(** What holds of the server state between requests: the permit is
    free, [data] points to a cell of the heap, and as long as nothing
    was assigned [data] is still the pointer to [now]. *)
Definition wellFormed (s : State) : Prop :=
  l s = []
  /\ (exists a t, timestamp (data s) = Some a /\ nth_error (heap s) a = Some t)
  /\ (assignments s = 0%nat ->
      data s = data initialState /\ nth_error (heap s) 0 = Some now).

(** The error, if any, with which [storeTimestamp] would see the
    decoding of [body] fail. *)
Definition decodeError (body : bytes) : option error :=
  snd (json_Unmarshal_Timestamp [] body (mkTimestamp None)).

(** A submission is malformed when it does not decode. *)
Definition malformed (body : bytes) : bool :=
  match decodeError body with
  | Some _ => true
  | None => false
  end.

(** A JSON object none of whose keys selects the field [timestamp]. *)
Definition lacksField (v : JValue) : bool :=
  match v with
  | JObject ms =>
      forallb (fun kv => negb (matchesField (bytesOf "timestamp") (fst kv))) ms
  | _ => false
  end.

(** The body the test helper [setTimestampCallStr] builds around a text
    that need not be a number. *)
Definition rawBody (v : string) : bytes :=
  "{"%char :: dq :: bytesOf "timestamp" ++ dq :: bytesOf " : "
  ++ bytesOf v ++ ["}"%char].

(** The helper [setTimestampCallStr] of the tests: [setTimestampCall]
    with that body. *)
Definition setTimestampCallStr (newTimeStampRaw : string) (n : Net) (s : State)
  : outcome (State * (option bytes * option error)) :=
  let body := rawBody newTimeStampRaw in
  '(s', reply) <- roundTrip n (mkRequest POST (bytesOf "text/plain") body) s ;;
  match reply with
  | CallError => Done (s', (None, Some TransportError))
  | BodyError _ => Done (s', (None, Some TransportError))
  | Answer response =>
      let responseBody := RespBody response in
      if negb (StatusCode response =? StatusOK) then
        Done (s', (Some responseBody, Some UnexpectedStatus))
      else Done (s', (Some responseBody, None))
  end.

(** One round of [TestSetAndGet]: set [x], get, and report what came
    back when neither call failed. *)
Definition setThenGet (x : Z) (s : State) : option (State * Z) :=
  match setTimestampCall x Delivered s with
  | Done (s1, (_, None)) =>
      match getTimestampCall Delivered s1 with
      | Done (s2, (Some v, None)) => Some (s2, v)
      | _ => None
      end
  | _ => None
  end.

(** One round of [TestSetAndGetNegative]: the set must fail and the
    get that follows must succeed; reports what the get returned. *)
Definition rejectThenGet (raw : string) (s : State) : option (State * Z) :=
  match setTimestampCallStr raw Delivered s with
  | Done (s1, (_, Some _)) =>
      match getTimestampCall Delivered s1 with
      | Done (s2, (Some v, None)) => Some (s2, v)
      | _ => None
      end
  | _ => None
  end.

(** The rounds of a test in sequence, collecting the values read. *)
Fixpoint rounds {A : Type} (round : A -> State -> option (State * Z))
         (inputs : list A) (s : State) : option (list Z) :=
  match inputs with
  | [] => Some []
  | x :: inputs' =>
      match round x s with
      | Some (s', v) =>
          match rounds round inputs' s' with
          | Some vs => Some (v :: vs)
          | None => None
          end
      | None => None
      end
  end.

(** A call run alone from entry to return: the three steps in a row. *)
Definition runToReturn (c : Call) (s : State) : outcome (Goroutine * State) :=
  '(g1, s1) <- gstep (mkGoroutine c AtEntry) s ;;
  '(g2, s2) <- gstep g1 s1 ;;
  gstep g2 s2.

(** The tokens in the channel are the callers inside, and there is at
    most one. *)
Definition exclusive (w : World) : Prop :=
  length (l (shared w)) = holders (pool w) /\ (holders (pool w) <= 1)%nat.

(** Every step is an acquire, a release, or leaves permit and callers
    inside as they were. *)
Definition stepKind (w w' : World) : Prop :=
  (permit (shared w) = Some FREE /\ permit (shared w') = Some HELD
   /\ holders (pool w') = S (holders (pool w)))
  \/ (permit (shared w) = Some HELD /\ permit (shared w') = Some FREE
      /\ S (holders (pool w')) = holders (pool w))
  \/ (l (shared w') = l (shared w) /\ holders (pool w') = holders (pool w)).

(** ** The tests of the repository

    [testing.T] is reduced to its failure flag: [t.Fail] and [t.Errorf]
    set it and the test goes on.  The calls of a test reach the server.
    Each function returns the flag: [true] when the test failed. *)

Definition isSome {A : Type} (o : option A) : bool :=
  match o with
  | Some _ => true
  | None => false
  end.


(** The loop of [TestSetAndGet] over the positive inputs. *)
Fixpoint TestSetAndGet_loop (testTimestamps : list Z) (s : State)
         (failed : bool) : outcome (State * bool) :=
  match testTimestamps with
  | [] => Done (s, failed)
  | testTimestamp :: rest =>
      '(s1, (_, err)) <- setTimestampCall testTimestamp Delivered s ;;
      let failed := failed || isSome err in
      '(s2, (ts, err')) <- getTimestampCall Delivered s1 ;;
      let failed := failed || isSome err' in
      match ts with
      | None => Panic
      | Some v =>
          TestSetAndGet_loop rest s2 (failed || negb (v =? testTimestamp))
      end
  end.

(** Check if new valid timestamp values can be set via REST calls. *)
Definition TestSetAndGet_body (s : State) : outcome (State * bool) :=
  TestSetAndGet_loop
    [-1906357250; -100; -50; 0; 25; 75; 1622366082; 1906357250] s false.

(** The loop of [TestSetAndGetNegative] over the negative inputs;
    [referenceTimestamp] is the pointer noted before the loop. *)
Fixpoint TestSetAndGetNegative_loop (testTimestamps : list string)
         (referenceTimestamp : option Z) (s : State) (failed : bool)
  : outcome (State * bool) :=
  match testTimestamps with
  | [] => Done (s, failed)
  | testTimestamp :: rest =>
      '(s1, (_, err)) <- setTimestampCallStr testTimestamp Delivered s ;;
      let failed := failed || negb (isSome err) in
      '(s2, (ts, err')) <- getTimestampCall Delivered s1 ;;
      let failed := failed || isSome err' in
      match ts, referenceTimestamp with
      | Some v, Some ref =>
          TestSetAndGetNegative_loop rest referenceTimestamp s2
                                     (failed || negb (v =? ref))
      | _, _ => Panic
      end
  end.

(** Check if invalid timestamp value cannot be set via REST calls, for
    any list of inputs; the test has the list [negativeInputs]. *)
Definition TestSetAndGetNegative_on (testTimestamps : list string) (s : State)
  : outcome (State * bool) :=
  '(s1, (referenceTimestamp, err)) <- getTimestampCall Delivered s ;;
  TestSetAndGetNegative_loop testTimestamps referenceTimestamp s1 (isSome err).

Definition negativeInputs : list string :=
  ["-19063572.50"; "-10,1"; "-50f"; "0E0"; "apple"; "tree";
   "1622366082fruit"]%string.

Definition TestSetAndGetNegative_body (s : State) : outcome (State * bool) :=
  TestSetAndGetNegative_on negativeInputs s.

(** ** Vocabulary of the further properties *)

(** The second count a submission decodes to, if it decodes. *)
Definition decodeSeconds (body : bytes) : option Z :=
  match parseJSON body with
  | None => None
  | Some v =>
      match decodeTimestampJson v (mkTimestampJson 0) with
      | (raw, None) => Some (TimestampJson_Timestamp raw)
      | (_, Some _) => None
      end
  end.

(** The Unix seconds of the instant [data] points to. *)
Definition storedSeconds (s : State) : option Z :=
  match deref (heap s) (timestamp (data s)) with
  | Done t => Some (Time_Unix t)
  | _ => None
  end.

(** The second count a request makes the server store, if any: it must
    be a POST with the plain-text content type whose body decodes. *)
Definition accepts (r : Request) : option Z :=
  if bytes_eqb (reqContentType r) (bytesOf "text/plain") then
    match reqMethod r with
    | POST => decodeSeconds (reqBody r)
    | _ => None
    end
  else None.

(** The one-cell machine the server implements: the value after a
    sequence of requests is that of the last one accepted. *)
Fixpoint observed (rs : list Request) (cur : Z) : Z :=
  match rs with
  | [] => cur
  | r :: rs' =>
      observed rs' (match accepts r with
                    | Some n => n
                    | None => cur
                    end)
  end.

(** A JSON value that is neither an object nor [null]. *)
Definition notObjectNorNull (v : JValue) : bool :=
  match v with
  | JObject _ | JNull => false
  | _ => true
  end.

(** The body around a number literal, as [setTimestampCallStr] builds
    it. *)
Definition literalBody (lit : bytes) : bytes :=
  "{"%char :: dq :: bytesOf "timestamp" ++ dq :: bytesOf " : "
  ++ lit ++ ["}"%char].

(** The goroutine has executed the body of its call. *)
Definition bodyDone (g : Goroutine) : bool :=
  match pc g with
  | AtDefer _ | Returned _ => true
  | AtEntry | InBody => false
  end.

(** The values assigned to [data] so far by the goroutines of a
    pool. *)
Definition written (g : Goroutine) : list Timestamp :=
  match call g with
  | CallSetData v => if bodyDone g then [v] else []
  | CallGetData => []
  end.

Definition writes (gs : list Goroutine) : list Timestamp :=
  flat_map written gs.

(** The value a goroutine has read, once it has. *)
Definition resultOf (g : Goroutine) : option Timestamp :=
  match pc g with
  | AtDefer r | Returned r => r
  | AtEntry | InBody => None
  end.

Definition returned (g : Goroutine) : bool :=
  match pc g with
  | Returned _ => true
  | _ => false
  end.

(** Steps of the goroutines already there, with no new call coming
    in. *)
Inductive runs : World -> World -> Prop :=
| runs_refl : forall w, runs w w
| runs_step : forall s s' pre g g' post w',
    gstep g s = Done (g', s') ->
    runs (mkWorld s' (pre ++ g' :: post)) w' ->
    runs (mkWorld s (pre ++ g :: post)) w'.

(** The steps a goroutine has left. *)
Definition work (g : Goroutine) : nat :=
  match pc g with
  | AtEntry => 3
  | InBody => 2
  | AtDefer _ => 1
  | Returned _ => 0
  end.

Definition workLeft (gs : list Goroutine) : nat :=
  fold_right (fun g n => (work g + n)%nat) 0%nat gs.

Example FormatInt_min :
  FormatInt (- 2 ^ 63) = bytesOf "-9223372036854775808".
Proof. vm_compute. reflexivity. Qed.

Example ParseInt_min :
  ParseInt (bytesOf "-9223372036854775808") = Some (- 2 ^ 63).
Proof. vm_compute. reflexivity. Qed.

Example ParseInt_over : ParseInt (bytesOf "9223372036854775808") = None.
Proof. vm_compute. reflexivity. Qed.

Example time_roundtrip_max : Time_Unix (time_Unix (2 ^ 63 - 1) 0) = 2 ^ 63 - 1.
Proof. vm_compute. reflexivity. Qed.

(** The repository's tests, run on the model. *)

Example TestGet :
  getTimestampCall Delivered initialState
  = Done (initialState, (Some initialUnixTimestamp, None)).
Proof. vm_compute. reflexivity. Qed.

Example TestSetAndGet :
  rounds setThenGet
         [-1906357250; -100; -50; 0; 25; 75; 1622366082; 1906357250]
         initialState
  = Some [-1906357250; -100; -50; 0; 25; 75; 1622366082; 1906357250].
Proof. vm_compute. reflexivity. Qed.

Example TestSetAndGetNegative :
  rounds rejectThenGet
         ["-19063572.50"; "-10,1"; "-50f"; "0E0"; "apple"; "tree";
          "1622366082fruit"]%string
         initialState
  = Some (repeat initialUnixTimestamp 7).
Proof. vm_compute. reflexivity. Qed.

(** * Properties *)

(** ** Machine integers and time *)

Lemma int64_id (z : Z) : inInt64 z -> int64 z = z.
Proof.
  unfold inInt64, int64. intros H.
  change (2 ^ 63) with 9223372036854775808 in *.
  change (2 ^ 64) with 18446744073709551616.
  rewrite Z.mod_small; lia.
Qed.

Lemma int64_range (z : Z) : inInt64 (int64 z).
Proof.
  unfold inInt64, int64.
  change (2 ^ 63) with 9223372036854775808.
  change (2 ^ 64) with 18446744073709551616.
  pose proof (Z.mod_pos_bound (z + 9223372036854775808) 18446744073709551616).
  lia.
Qed.

Lemma int64_add_sub (x k : Z) : inInt64 x -> int64 (int64 (x + k) - k) = x.
Proof.
  unfold inInt64, int64. intros H.
  change (2 ^ 63) with 9223372036854775808 in *.
  change (2 ^ 64) with 18446744073709551616.
  replace ((x + k + 9223372036854775808) mod 18446744073709551616
           - 9223372036854775808 - k + 9223372036854775808)
    with ((x + k + 9223372036854775808) mod 18446744073709551616
          + (- k)) by ring.
  rewrite Zplus_mod_idemp_l.
  replace (x + k + 9223372036854775808 + - k)
    with (x + 9223372036854775808) by ring.
  rewrite Z.mod_small; lia.
Qed.

(** [time.Unix(x, 0).Unix()] is [x], whatever the [int64] [x]: the two
    offsets wrap around and cancel. *)
Lemma Time_Unix_time_Unix (x : Z) : inInt64 x -> Time_Unix (time_Unix x 0) = x.
Proof.
  intros H. unfold Time_Unix, time_Unix, Time_sec. cbn [Z.ltb Z.leb orb].
  cbn [wall ext]. unfold internalToUnix.
  change (Z.land (uint64 0) hasMonotonic =? 0) with true. cbv iota.
  apply int64_add_sub. exact H.
Qed.

(** ** Decimal text *)

Lemma digitChar_digit (d : Z) :
  0 <= d <= 9 ->
  isDigit (digitChar d) = true /\ digitVal (digitChar d) = d
  /\ (digitChar d = "0"%char -> d = 0).
Proof.
  intros H.
  assert (E : d = 0 \/ d = 1 \/ d = 2 \/ d = 3 \/ d = 4 \/ d = 5 \/ d = 6
              \/ d = 7 \/ d = 8 \/ d = 9) by lia.
  repeat (destruct E as [E | E]; [subst d; repeat split; auto;
                                  intros K; vm_compute in K; discriminate |]).
  subst d; repeat split; auto; intros K; vm_compute in K; discriminate.
Qed.

Lemma parseDigits_app (a b : bytes) (x : Z) :
  parseDigits (a ++ b) x =
  match parseDigits a x with
  | Some y => parseDigits b y
  | None => None
  end.
Proof.
  revert x. induction a as [| c a IH]; intros x; simpl.
  - reflexivity.
  - destruct (isDigit c); [apply IH | reflexivity].
Qed.

Lemma formatBits_decimal (fuel : nat) :
  forall u acc,
    (0 < fuel)%nat -> 0 <= u < 10 ^ Z.of_nat fuel ->
    exists ds, formatBits fuel u acc = ds ++ acc /\ decimalOf u ds.
Proof.
  induction fuel as [| fuel IH]; intros u acc Hf Hu; [lia |].
  cbn [formatBits]. destruct (u <? 10) eqn:Hlt.
  - apply Z.ltb_lt in Hlt.
    destruct (digitChar_digit u ltac:(lia)) as (Hd & Hv & Hz).
    exists [digitChar u]. split; [reflexivity |].
    repeat split.
    + discriminate.
    + cbn. now rewrite Hd.
    + intros a. cbn [parseDigits length]. rewrite Hd, Hv.
      change (Z.of_nat 1) with 1. rewrite Z.pow_1_r. f_equal. lia.
    + intros tl E. now inversion E.
  - apply Z.ltb_ge in Hlt.
    assert (Hq : 0 <= u / 10 < 10 ^ Z.of_nat fuel).
    { rewrite Nat2Z.inj_succ, Z.pow_succ_r in Hu by lia.
      split; [apply Z.div_pos; lia | apply Z.div_lt_upper_bound; lia]. }
    assert (Hq1 : 1 <= u / 10) by (apply Z.div_le_lower_bound; lia).
    assert (Hf' : (0 < fuel)%nat).
    { destruct fuel; [cbn in Hq; lia | lia]. }
    destruct (IH (u / 10) (digitChar (u mod 10) :: acc) Hf' Hq)
      as (ds & E & Hne & Hall & Hval & Hlead).
    pose proof (Z.mod_pos_bound u 10 ltac:(lia)) as Hm.
    destruct (digitChar_digit (u mod 10) ltac:(lia)) as (Hd & Hv & _).
    exists (ds ++ [digitChar (u mod 10)]). split.
    { rewrite E, <- app_assoc. reflexivity. }
    repeat split.
    + destruct ds; discriminate.
    + rewrite forallb_app, Hall. cbn. now rewrite Hd.
    + intros a. rewrite parseDigits_app, Hval. cbn [parseDigits].
      rewrite Hd, Hv, length_app. cbn [length].
      rewrite Nat2Z.inj_add, Z.pow_add_r by lia.
      change (10 ^ Z.of_nat 1) with 10. f_equal.
      pose proof (Z.div_mod u 10 ltac:(lia)). lia.
    + intros tl Etl. destruct ds as [| c ds']; [congruence |].
      cbn in Etl. inversion Etl; subst c.
      specialize (Hlead ds' eq_refl). subst ds'.
      specialize (Hval 0). cbn in Hval. inversion Hval. lia.
Qed.

(** The text [FormatInt] prints for an [int64]: a sign when negative,
    then the numeral of the magnitude. *)
Lemma FormatInt_shape (x : Z) :
  inInt64 x ->
  exists ds,
    decimalOf (Z.abs x) ds
    /\ FormatInt x = (if x <? 0 then ["-"%char] else []) ++ ds.
Proof.
  unfold inInt64, FormatInt. intros H.
  change (2 ^ 63) with 9223372036854775808 in H.
  destruct (x <? 0) eqn:Hneg.
  - apply Z.ltb_lt in Hneg.
    destruct (formatBits_decimal 20 (- x) [] ltac:(lia)) as (ds & E & Hd).
    { change (10 ^ Z.of_nat 20) with 100000000000000000000. lia. }
    exists ds. rewrite E, app_nil_r. split; [| reflexivity].
    now replace (Z.abs x) with (- x) by lia.
  - apply Z.ltb_ge in Hneg.
    destruct (formatBits_decimal 20 x [] ltac:(lia)) as (ds & E & Hd).
    { change (10 ^ Z.of_nat 20) with 100000000000000000000. lia. }
    exists ds. rewrite E, app_nil_r. split; [| reflexivity].
    now replace (Z.abs x) with x by lia.
Qed.

Lemma isDigit_not_sign (c : ascii) :
  isDigit c = true ->
  (c =? "+")%char = false /\ (c =? "-")%char = false.
Proof.
  destruct c as [[] [] [] [] [] [] [] []]; vm_compute; intros; try discriminate;
    split; reflexivity.
Qed.

(** [ParseInt] reads back what [FormatInt] prints. *)
Lemma ParseInt_FormatInt (x : Z) : inInt64 x -> ParseInt (FormatInt x) = Some x.
Proof.
  intros H. destruct (FormatInt_shape x H) as (ds & (Hne & Hall & Hval & _) & E).
  rewrite E. unfold inInt64 in H.
  change (2 ^ 63) with 9223372036854775808 in H.
  unfold ParseInt. destruct ds as [| c tl]; [congruence |].
  destruct (x <? 0) eqn:Hneg; cbn [app].
  - apply Z.ltb_lt in Hneg.
    change (("-" =? "+")%char) with false.
    change (("-" =? "-")%char) with true. cbv iota.
    rewrite Hval. rewrite Z.mul_0_l, Z.add_0_l.
    change (2 ^ 63) with 9223372036854775808.
    destruct (Z.leb_spec (Z.abs x) 9223372036854775808); [| lia].
    f_equal. lia.
  - apply Z.ltb_ge in Hneg.
    cbn in Hall. apply andb_prop in Hall. destruct Hall as [Hc _].
    destruct (isDigit_not_sign c Hc) as [-> ->].
    rewrite Hval. rewrite Z.mul_0_l, Z.add_0_l.
    change (2 ^ 63) with 9223372036854775808.
    destruct (Z.ltb_spec (Z.abs x) 9223372036854775808); [| lia].
    f_equal. lia.
Qed.

(** ** Reading a printed integer as a JSON number *)

Lemma takeDigits_app (ds : bytes) (c : ascii) (r : bytes) :
  forallb isDigit ds = true -> isDigit c = false ->
  takeDigits (ds ++ c :: r) = (ds, c :: r).
Proof.
  intros Hds Hc. induction ds as [| d ds IH]; cbn [app takeDigits].
  - now rewrite Hc.
  - cbn in Hds. apply andb_prop in Hds. destruct Hds as [Hd Hds].
    now rewrite Hd, IH.
Qed.

Lemma scanNumber_decimal (neg : bool) (u : Z) (ds r : bytes) :
  decimalOf u ds ->
  scanNumber ((if neg then ["-"%char] else []) ++ ds ++ "}"%char :: r)
  = Some ((if neg then ["-"%char] else []) ++ ds, "}"%char :: r).
Proof.
  intros (Hne & Hall & _ & Hlead).
  destruct ds as [| c tl]; [congruence |].
  cbn in Hall. apply andb_prop in Hall. destruct Hall as [Hc Htl].
  destruct (isDigit_not_sign c Hc) as [_ Hminus].
  assert (Hint : scanInt (c :: tl ++ "}"%char :: r)
                 = Some (c :: tl, "}"%char :: r)).
  { unfold scanInt. destruct (c =? "0")%char eqn:Hz.
    - apply Ascii.eqb_eq in Hz. subst c.
      rewrite (Hlead tl eq_refl). reflexivity.
    - rewrite Hc, takeDigits_app by (auto; reflexivity). reflexivity. }
  unfold scanNumber.
  destruct neg; cbn [app scanSign].
  - change (("-" =? "-")%char) with true. cbv iota.
    rewrite Hint. cbn. now rewrite !app_nil_r.
  - rewrite Hminus. rewrite Hint. cbn. now rewrite !app_nil_r.
Qed.

Lemma scanNumber_FormatInt (x : Z) (r : bytes) :
  inInt64 x ->
  scanNumber (FormatInt x ++ "}"%char :: r)
  = Some (FormatInt x, "}"%char :: r).
Proof.
  intros H. destruct (FormatInt_shape x H) as (ds & Hd & E).
  rewrite E. rewrite <- app_assoc.
  exact (scanNumber_decimal (x <? 0) (Z.abs x) ds r Hd).
Qed.

Lemma startsNumber_isSpace (c : ascii) :
  startsNumber c = true -> isSpace c = false.
Proof.
  destruct c as [[] [] [] [] [] [] [] []]; vm_compute; intros;
    try discriminate; reflexivity.
Qed.

Lemma startsNumber_parseValue (fuel : nat) (depth : Z) (c : ascii) (r : bytes) :
  startsNumber c = true ->
  parseValue (S fuel) depth (c :: r)
  = match scanNumber (c :: r) with
    | Some (lit, r1) => POk (JNumber lit, r1)
    | None => PErr
    end.
Proof.
  intros H. cbn [parseValue].
  assert (E : (c =? "{")%char = false /\ (c =? "[")%char = false
              /\ (c =? dq)%char = false /\ (c =? "t")%char = false
              /\ (c =? "f")%char = false /\ (c =? "n")%char = false).
  { destruct c as [[] [] [] [] [] [] [] []]; vm_compute in H;
      try discriminate; vm_compute; repeat split. }
  destruct E as (-> & -> & -> & -> & -> & ->). reflexivity.
Qed.

Lemma FormatInt_head (x : Z) :
  inInt64 x -> exists c tl, FormatInt x = c :: tl /\ startsNumber c = true.
Proof.
  intros H. destruct (FormatInt_shape x H) as (ds & (Hne & Hall & _) & E).
  rewrite E. destruct (x <? 0); cbn [app].
  - eexists _, _. split; reflexivity.
  - destruct ds as [| c tl]; [congruence |].
    exists c, tl. split; [reflexivity |].
    cbn in Hall. apply andb_prop in Hall. destruct Hall as [Hc _].
    unfold startsNumber. now rewrite Hc.
Qed.

Lemma skipSpace_FormatInt (x : Z) (r : bytes) :
  inInt64 x -> skipSpace (FormatInt x ++ r) = FormatInt x ++ r.
Proof.
  intros H. destruct (FormatInt_head x H) as (c & tl & -> & Hc).
  cbn [app skipSpace]. now rewrite (startsNumber_isSpace c Hc).
Qed.

Lemma parseValue_FormatInt (fuel : nat) (depth : Z) (x : Z) (r : bytes) :
  inInt64 x ->
  parseValue (S fuel) depth (FormatInt x ++ "}"%char :: r)
  = POk (JNumber (FormatInt x), "}"%char :: r).
Proof.
  intros H. pose proof (scanNumber_FormatInt x r H) as Hs.
  destruct (FormatInt_head x H) as (c & tl & E & Hc).
  rewrite E in *. cbn [app] in *.
  rewrite (startsNumber_parseValue fuel depth c _ Hc), Hs. reflexivity.
Qed.

(** ** The two texts that carry a timestamp *)

Lemma setTimestampBody_object (x : Z) :
  setTimestampBody x = timestampObject [" "%char] [" "%char] x.
Proof. reflexivity. Qed.

Lemma json_Marshal_object (x : Z) :
  json_Marshal_TimestampJson (mkTimestampJson x) = timestampObject [] [] x.
Proof. reflexivity. Qed.

Lemma skipSpace_spaces (sp r : bytes) :
  forallb isSpace sp = true -> skipSpace (sp ++ r) = skipSpace r.
Proof.
  induction sp as [| c sp IH]; cbn [app forallb skipSpace]; intros H.
  - reflexivity.
  - apply andb_prop in H. destruct H as [Hc Hsp]. rewrite Hc. now apply IH.
Qed.

Lemma skipSpace_length (s : bytes) : (length (skipSpace s) <= length s)%nat.
Proof.
  induction s as [| c s IH]; cbn [skipSpace length]; [lia |].
  destruct (isSpace c); cbn [length]; lia.
Qed.

Lemma parseValue_timestamp_member (fuel : nat) (r : bytes) :
  parseValue (S (S fuel)) 0
             ("{"%char :: dq :: bytesOf "timestamp" ++ dq :: r)
  = match skipSpace r with
    | [] => PErr
    | c2 :: r2 =>
        if (c2 =? ":")%char then
          match parseValue fuel 1 (skipSpace r2) with
          | POk (v, r3) =>
              match skipSpace r3 with
              | [] => PErr
              | c4 :: r4 =>
                  if (c4 =? ",")%char then
                    parseMembers fuel 1 (skipSpace r4)
                                 [(bytesOf "timestamp", v)]
                  else if (c4 =? "}")%char then
                    POk (JObject [(bytesOf "timestamp", v)], r4)
                  else PErr
              end
          | PErr => PErr
          | PFuel => PFuel
          end
        else PErr
    end.
Proof. reflexivity. Qed.

Lemma timestampObject_app (sp1 sp2 : bytes) (x : Z) (r : bytes) :
  timestampObject sp1 sp2 x ++ r
  = "{"%char :: dq :: bytesOf "timestamp"
    ++ dq :: (sp1 ++ ":"%char :: (sp2 ++ (FormatInt x ++ "}"%char :: r))).
Proof.
  unfold timestampObject. cbn [app bytesOf list_ascii_of_string].
  repeat (f_equal; []). rewrite <- !app_assoc. cbn [app].
  f_equal. f_equal. rewrite <- !app_assoc. reflexivity.
Qed.

Lemma parseValue_timestampObject (fuel : nat) (sp1 sp2 : bytes) (x : Z)
      (r : bytes) :
  forallb isSpace sp1 = true -> forallb isSpace sp2 = true -> inInt64 x ->
  parseValue (S (S (S fuel))) 0 (timestampObject sp1 sp2 x ++ r)
  = POk (JObject [(bytesOf "timestamp", JNumber (FormatInt x))], r).
Proof.
  intros H1 H2 Hx.
  rewrite timestampObject_app, parseValue_timestamp_member.
  rewrite skipSpace_spaces by assumption.
  change (skipSpace (":"%char :: ?t)) with (":"%char :: t).
  cbv iota. rewrite Ascii.eqb_refl.
  rewrite skipSpace_spaces, skipSpace_FormatInt by assumption.
  rewrite parseValue_FormatInt by assumption.
  reflexivity.
Qed.

Lemma parseJSON_timestampObject (sp1 sp2 trail : bytes) (x : Z) :
  forallb isSpace sp1 = true -> forallb isSpace sp2 = true ->
  forallb isSpace trail = true -> inInt64 x ->
  parseJSON (timestampObject sp1 sp2 x ++ trail)
  = Some (JObject [(bytesOf "timestamp", JNumber (FormatInt x))]).
Proof.
  intros H1 H2 H3 Hx. unfold parseJSON.
  change (skipSpace (timestampObject sp1 sp2 x ++ trail))
    with (timestampObject sp1 sp2 x ++ trail).
  destruct (FormatInt_head x Hx) as (c & tl & E & _).
  assert (L : exists n, length (timestampObject sp1 sp2 x ++ trail)
                        = S (S n)).
  { unfold timestampObject. cbn [app length]. eauto. }
  destruct L as (n & ->).
  rewrite parseValue_timestampObject by assumption.
  rewrite <- (app_nil_r trail), skipSpace_spaces by assumption.
  reflexivity.
Qed.

Lemma valueSlice_timestampObject (sp1 sp2 trail : bytes) (x : Z) :
  forallb isSpace sp1 = true -> forallb isSpace sp2 = true -> inInt64 x ->
  valueSlice (timestampObject sp1 sp2 x ++ trail) = timestampObject sp1 sp2 x.
Proof.
  intros H1 H2 Hx. unfold valueSlice.
  change (skipSpace (timestampObject sp1 sp2 x ++ trail))
    with (timestampObject sp1 sp2 x ++ trail).
  assert (L : exists n, length (timestampObject sp1 sp2 x ++ trail)
                        = S (S n)).
  { unfold timestampObject. cbn [app length]. eauto. }
  destruct L as (n & L). rewrite L at 1.
  rewrite parseValue_timestampObject by assumption.
  rewrite length_app, Nat.add_sub, firstn_app, Nat.sub_diag, firstn_all.
  cbn [firstn]. apply app_nil_r.
Qed.

Lemma matchesField_timestamp :
  matchesField (bytesOf "timestamp") (bytesOf "timestamp") = true.
Proof. reflexivity. Qed.

(** Decoding either text yields the integer it carries. *)
Lemma json_Unmarshal_timestampObject (sp1 sp2 trail : bytes) (x : Z)
      (raw : TimestampJson) :
  forallb isSpace sp1 = true -> forallb isSpace sp2 = true ->
  forallb isSpace trail = true -> inInt64 x ->
  json_Unmarshal_TimestampJson (timestampObject sp1 sp2 x ++ trail) raw
  = (mkTimestampJson x, None).
Proof.
  intros H1 H2 H3 Hx. unfold json_Unmarshal_TimestampJson.
  rewrite parseJSON_timestampObject by assumption.
  cbn [decodeTimestampJson decodeMembers]. rewrite matchesField_timestamp.
  cbn [storeInt64]. rewrite ParseInt_FormatInt by assumption. reflexivity.
Qed.

(** ** The parser never runs out of fuel *)

Lemma takeDigits_length (s ds r : bytes) :
  takeDigits s = (ds, r) -> (length r <= length s)%nat.
Proof.
  revert ds r. induction s as [| c s IH]; cbn [takeDigits]; intros ds r E.
  - inversion E. cbn. lia.
  - destruct (isDigit c).
    + destruct (takeDigits s) as [ds' r'] eqn:E'. inversion E; subst.
      specialize (IH _ _ eq_refl). cbn [length]. lia.
    + inversion E. lia.
Qed.

Lemma stripPrefix_length (p s r : bytes) :
  stripPrefix p s = Some r -> (length r <= length s)%nat.
Proof.
  revert s. induction p as [| a p IH]; intros s E.
  - destruct s; inversion E; lia.
  - destruct s as [| b s]; cbn [stripPrefix] in E; [discriminate |].
    destruct (a =? b)%char; [| discriminate].
    apply IH in E. cbn [length]. lia.
Qed.

Lemma scanString_length (n : nat) :
  forall s pend copy acc x r,
    (length s <= n)%nat ->
    scanString s pend copy acc = Some (x, r) -> (length r < length s)%nat.
Proof.
  induction n as [| n IH]; intros s pend copy acc x r Hn E.
  - destruct s; [discriminate | cbn in Hn; lia].
  - destruct s as [| c s]; [discriminate |].
    cbn [length] in Hn. cbn [scanString] in E.
    destruct copy as [| k].
    + destruct (c =? dq)%char.
      { inversion E; subst. cbn [length]. lia. }
      destruct (c =? "\")%char.
      { destruct s as [| e s1]; [discriminate |]. cbn [length] in Hn.
        destruct (simpleEscape e).
        - apply IH in E; [cbn [length]; lia | lia].
        - destruct (e =? "u")%char; [| discriminate].
          destruct s1 as [| h1 [| h2 [| h3 [| h4 r2]]]]; try discriminate.
          destruct (hex4 h1 h2 h3 h4); [| discriminate].
          destruct (pushEscapedRune z pend acc) as [pend' acc'].
          apply IH in E; cbn [length] in *; lia. }
      destruct (byteVal c <? 32); [discriminate |].
      destruct (byteVal c <? 128).
      { apply IH in E; [cbn [length]; lia | lia]. }
      destruct (runeLen (c :: s)); apply IH in E; cbn [length]; lia.
    + apply IH in E; [cbn [length]; lia | lia].
Qed.

Lemma scanNumber_length (s lit r : bytes) :
  scanNumber s = Some (lit, r) -> (length r <= length s)%nat.
Proof.
  unfold scanNumber, scanSign, scanInt, scanFrac, scanExp. intros E.
  repeat match type of E with
         | context [match ?t with _ => _ end] =>
             first
               [ is_var t; destruct t
               | match t with
                 | takeDigits ?a =>
                     let H := fresh "T" in
                     destruct (takeDigits a) as [? ?] eqn:H;
                     apply takeDigits_length in H
                 | (_ =? _)%char => destruct t
                 | (_ || _) => destruct t
                 | isDigit _ => destruct t
                 end ];
             cbv beta iota zeta in E
         end;
    try discriminate;
    inversion E; subst; cbn [length] in *; lia.
Qed.

Lemma settled_err (s : bytes) : settled PErr s.
Proof. split; [discriminate | intros v r E; discriminate]. Qed.

Lemma settled_ok (v : JValue) (r s : bytes) :
  (length r <= length s)%nat -> settled (POk (v, r)) s.
Proof.
  intros H. split; [discriminate |]. intros v' r' E. inversion E; subst. exact H.
Qed.

Lemma settled_weaken (p : parsed (JValue * bytes)) (s s' : bytes) :
  settled p s -> (length s <= length s')%nat -> settled p s'.
Proof.
  intros [H1 H2] L. split; [exact H1 |]. intros v r E.
  specialize (H2 v r E). lia.
Qed.

Lemma parse_fuel (fuel : nat) :
  (forall d s, (length s < fuel)%nat -> settled (parseValue fuel d s) s)
  /\ (forall d s acc,
         (length s < fuel)%nat -> settled (parseMembers fuel d s acc) s)
  /\ (forall d s acc,
         (length s < fuel)%nat -> settled (parseElems fuel d s acc) s).
Proof.
  induction fuel as [| fuel (IHv & IHm & IHe)].
  { repeat split; intros; lia. }
  split; [| split].
  - intros d s L. cbn [parseValue].
    destruct s as [| c r]; [apply settled_err |]. cbn [length] in L.
    pose proof (skipSpace_length r) as Lr.
    destruct (c =? "{")%char.
    { destruct (maxNestingDepth <? d + 1); [apply settled_err |].
      destruct (skipSpace r) as [| c1 r1] eqn:E1; [apply settled_err |].
      destruct (c1 =? "}")%char.
      - apply settled_ok. cbn [length] in *. lia.
      - apply settled_weaken with (s := c1 :: r1).
        + apply IHm. lia.
        + cbn [length] in *. lia. }
    destruct (c =? "[")%char.
    { destruct (maxNestingDepth <? d + 1); [apply settled_err |].
      destruct (skipSpace r) as [| c1 r1] eqn:E1; [apply settled_err |].
      destruct (c1 =? "]")%char.
      - apply settled_ok. cbn [length] in *. lia.
      - destruct (IHv (d + 1) (c1 :: r1) ltac:(lia)) as [Hf Hl].
        destruct (parseValue fuel (d + 1) (c1 :: r1)) as [[v r2] | |];
          [| apply settled_err | congruence].
        specialize (Hl v r2 eq_refl).
        apply settled_weaken with (s := r2).
        + apply IHe. lia.
        + cbn [length] in *. lia. }
    destruct (c =? dq)%char.
    { destruct (scanString r None 0 []) as [[str r1] |] eqn:E1;
        [| apply settled_err].
      apply scanString_length with (n := length r) in E1; [| lia].
      apply settled_ok. cbn [length]. lia. }
    destruct (c =? "t")%char.
    { destruct (stripPrefix (bytesOf "rue") r) as [r1 |] eqn:E1;
        [| apply settled_err].
      apply stripPrefix_length in E1. apply settled_ok. cbn [length]. lia. }
    destruct (c =? "f")%char.
    { destruct (stripPrefix (bytesOf "alse") r) as [r1 |] eqn:E1;
        [| apply settled_err].
      apply stripPrefix_length in E1. apply settled_ok. cbn [length]. lia. }
    destruct (c =? "n")%char.
    { destruct (stripPrefix (bytesOf "ull") r) as [r1 |] eqn:E1;
        [| apply settled_err].
      apply stripPrefix_length in E1. apply settled_ok. cbn [length]. lia. }
    destruct (scanNumber (c :: r)) as [[lit r1] |] eqn:E1;
      [| apply settled_err].
    apply scanNumber_length in E1. apply settled_ok. exact E1.
  - intros d s acc L. cbn [parseMembers].
    destruct s as [| c r]; [apply settled_err |]. cbn [length] in L.
    destruct (c =? dq)%char; [| apply settled_err].
    destruct (scanString r None 0 []) as [[key r1] |] eqn:E1;
      [| apply settled_err].
    apply scanString_length with (n := length r) in E1; [| lia].
    pose proof (skipSpace_length r1) as L1.
    destruct (skipSpace r1) as [| c2 r2]; [apply settled_err |].
    destruct (c2 =? ":")%char; [| apply settled_err].
    pose proof (skipSpace_length r2) as L2. cbn [length] in L1.
    destruct (IHv d (skipSpace r2) ltac:(lia)) as [Hf Hl].
    destruct (parseValue fuel d (skipSpace r2)) as [[v r3] | |];
      [| apply settled_err | congruence].
    specialize (Hl v r3 eq_refl).
    pose proof (skipSpace_length r3) as L3.
    destruct (skipSpace r3) as [| c4 r4]; [apply settled_err |].
    cbn [length] in L3. pose proof (skipSpace_length r4) as L4.
    destruct (c4 =? ",")%char.
    { apply settled_weaken with (s := skipSpace r4).
      - apply IHm. lia.
      - cbn [length]. lia. }
    destruct (c4 =? "}")%char; [| apply settled_err].
    apply settled_ok. cbn [length]. lia.
  - intros d s acc L. cbn [parseElems].
    pose proof (skipSpace_length s) as L0.
    destruct (skipSpace s) as [| c r]; [apply settled_err |].
    cbn [length] in L0. pose proof (skipSpace_length r) as L1.
    destruct (c =? ",")%char.
    { destruct (IHv d (skipSpace r) ltac:(lia)) as [Hf Hl].
      destruct (parseValue fuel d (skipSpace r)) as [[v r1] | |];
        [| apply settled_err | congruence].
      specialize (Hl v r1 eq_refl).
      apply settled_weaken with (s := r1).
      - apply IHe. lia.
      - lia. }
    destruct (c =? "]")%char; [| apply settled_err].
    apply settled_ok. lia.
Qed.

(** With the fuel [parseJSON] and [valueSlice] give it, the parser
    answers: a value or a syntax error. *)
Lemma parseValue_fuel (d : Z) (s : bytes) :
  parseValue (S (length s)) d s <> PFuel.
Proof.
  destruct (parse_fuel (S (length s))) as (Hv & _).
  destruct (Hv d s ltac:(lia)) as [H _]. exact H.
Qed.

(** ** The guarded cell, one caller at a time *)

Lemma withChan_restore (s : State) : l s = [] -> withChan [] (withChan (l s ++ [1]) s) = s.
Proof. destruct s as [h d q n]. cbn. intros ->. reflexivity. Qed.

Lemma withHeap_same (s : State) : withHeap (heap s) s = s.
Proof. destruct s; reflexivity. Qed.

Lemma getData_free (s : State) : l s = [] -> getData s = Done (s, data s).
Proof.
  intros H. unfold getData, send. rewrite H. cbn.
  unfold withChan. cbn. destruct s as [h d q n]. cbn in *. now subst q.
Qed.

Lemma setData_free (newValue : Timestamp) (s : State) :
  l s = [] -> setData newValue s = Done (assign newValue s).
Proof.
  intros H. unfold setData, send. rewrite H. cbn.
  unfold assign, withChan. cbn. destruct s as [h d q n]. cbn in *. now subst q.
Qed.

Lemma getData_blocked (s : State) : l s <> [] -> getData s = Blocked.
Proof.
  intros H. unfold getData, send. destruct (l s) as [| v q]; [congruence |].
  reflexivity.
Qed.

(** ** Decoding a submission *)

Lemma UnmarshalJSON_timestampObject (h : list Time) (t : Timestamp)
      (sp1 sp2 trail : bytes) (x : Z) :
  forallb isSpace sp1 = true -> forallb isSpace sp2 = true ->
  forallb isSpace trail = true -> inInt64 x ->
  UnmarshalJSON h t (timestampObject sp1 sp2 x ++ trail)
  = (h ++ [time_Unix x 0], mkTimestamp (Some (length h)), None).
Proof.
  intros H1 H2 H3 Hx. unfold UnmarshalJSON.
  rewrite json_Unmarshal_timestampObject by assumption. reflexivity.
Qed.

Lemma json_Unmarshal_Timestamp_timestampObject (h : list Time) (t : Timestamp)
      (sp1 sp2 trail : bytes) (x : Z) :
  forallb isSpace sp1 = true -> forallb isSpace sp2 = true ->
  forallb isSpace trail = true -> inInt64 x ->
  json_Unmarshal_Timestamp h (timestampObject sp1 sp2 x ++ trail) t
  = (h ++ [time_Unix x 0], mkTimestamp (Some (length h)), None).
Proof.
  intros H1 H2 H3 Hx. unfold json_Unmarshal_Timestamp.
  rewrite parseJSON_timestampObject, valueSlice_timestampObject by assumption.
  rewrite <- (app_nil_r (timestampObject sp1 sp2 x)).
  now apply UnmarshalJSON_timestampObject.
Qed.

Lemma deref_fresh (h : list Time) (t : Time) :
  deref (h ++ [t]) (Some (length h)) = Done t.
Proof.
  unfold deref. rewrite nth_error_app2, Nat.sub_diag by lia. reflexivity.
Qed.

Lemma storeTimestamp_setTimestampBody (x : Z) (s : State) :
  l s = [] -> inInt64 x ->
  storeTimestamp (setTimestampBody x) s = Done (stored x s, okResponse).
Proof.
  intros Hl Hx. unfold storeTimestamp.
  rewrite setTimestampBody_object.
  rewrite <- (app_nil_r (timestampObject _ _ x)).
  rewrite json_Unmarshal_Timestamp_timestampObject by (auto; reflexivity).
  rewrite setData_free by exact Hl. reflexivity.
Qed.

Lemma returnTimestamp_free (s : State) (tm : Time) :
  l s = [] -> deref (heap s) (timestamp (data s)) = Done tm ->
  returnTimestamp s
  = Done (s, mkHttpResponse StatusOK
               (json_Marshal_TimestampJson (mkTimestampJson (Time_Unix tm))
                ++ [newline])).
Proof.
  intros Hl Hd. unfold returnTimestamp. rewrite getData_free by exact Hl.
  cbn [bind]. unfold MarshalJSON. rewrite Hd. reflexivity.
Qed.

Lemma stored_deref (x : Z) (s : State) :
  deref (heap (stored x s)) (timestamp (data (stored x s)))
  = Done (time_Unix x 0).
Proof. unfold stored. cbn. apply deref_fresh. Qed.

Lemma stored_free (x : Z) (s : State) : l (stored x s) = l s.
Proof. reflexivity. Qed.

Lemma getTimestampCall_free (s : State) (tm : Time) :
  l s = [] -> deref (heap s) (timestamp (data s)) = Done tm ->
  getTimestampCall Delivered s = Done (s, (Some (Time_Unix tm), None)).
Proof.
  intros Hl Hd. unfold getTimestampCall, roundTrip, handleRequests.
  cbn [reqContentType reqMethod].
  change (bytes_eqb (bytesOf "text/plain") (bytesOf "text/plain")) with true.
  cbv iota. rewrite (returnTimestamp_free s tm Hl Hd). cbn [bind RespBody].
  rewrite json_Marshal_object.
  rewrite json_Unmarshal_timestampObject
    by (try reflexivity; unfold Time_Unix; apply int64_range).
  reflexivity.
Qed.

Lemma setTimestampCall_free (x : Z) (s : State) :
  l s = [] -> inInt64 x ->
  setTimestampCall x Delivered s
  = Done (stored x s, (Some (RespBody okResponse), None)).
Proof.
  intros Hl Hx. unfold setTimestampCall, roundTrip, handleRequests.
  cbn [reqContentType reqMethod reqBody].
  change (bytes_eqb (bytesOf "text/plain") (bytesOf "text/plain")) with true.
  cbv iota. rewrite storeTimestamp_setTimestampBody by assumption.
  reflexivity.
Qed.

(** ** Requests served in sequence *)

Lemma wellFormed_initial : wellFormed initialState.
Proof.
  split; [reflexivity |]. split; [| split; reflexivity].
  exists 0%nat, now. split; reflexivity.
Qed.

Lemma json_Unmarshal_Timestamp_cases (h : list Time) (body : bytes)
      (t : Timestamp) :
  (exists e, json_Unmarshal_Timestamp h body t = (h, t, Some e))
  \/ (exists n, json_Unmarshal_Timestamp h body t
                = (h ++ [time_Unix n 0], mkTimestamp (Some (length h)), None)).
Proof.
  unfold json_Unmarshal_Timestamp.
  destruct (parseJSON body); [| left; eauto].
  unfold UnmarshalJSON.
  destruct (json_Unmarshal_TimestampJson (valueSlice body) (mkTimestampJson 0))
    as [raw [e |]]; [left | right]; eauto.
Qed.

Lemma handleRequests_wellFormed (r : Request) (s : State) :
  wellFormed s ->
  exists s' resp,
    handleRequests r s = Done (s', resp) /\ wellFormed s'
    /\ (assignments s <= assignments s')%nat.
Proof.
  intros (Hl & (a & t & Ha & Ht) & H0).
  assert (W : wellFormed s) by (split; [| split]; eauto).
  unfold handleRequests.
  destruct (bytes_eqb (reqContentType r) (bytesOf "text/plain"));
    [| eauto 6].
  destruct (reqMethod r); [| | eauto 6].
  - assert (D : deref (heap s) (timestamp (data s)) = Done t).
    { unfold deref. now rewrite Ha, Ht. }
    rewrite (returnTimestamp_free s t Hl D). eauto 6.
  - unfold storeTimestamp.
    destruct (json_Unmarshal_Timestamp_cases (heap s) (reqBody r)
                (mkTimestamp None)) as [(e & ->) | (n & ->)].
    + rewrite withHeap_same. eauto 6.
    + rewrite setData_free by exact Hl. cbn [bind].
      eexists _, _. split; [reflexivity |]. split; [| cbn; lia].
      split; [exact Hl |]. split; [| cbn; discriminate].
      exists (length (heap s)), (time_Unix n 0). split; [reflexivity |].
      cbn. rewrite nth_error_app2, Nat.sub_diag by lia. reflexivity.
Qed.

Lemma serveAll_wellFormed (rs : list Request) :
  forall s, wellFormed s ->
            exists s', serveAll rs s = Done s' /\ wellFormed s'
                       /\ (assignments s <= assignments s')%nat.
Proof.
  induction rs as [| r rs IH]; intros s W; cbn [serveAll].
  - exists s. auto.
  - destruct (handleRequests_wellFormed r s W) as (s1 & resp & -> & W1 & L1).
    cbn [bind]. destruct (IH s1 W1) as (s2 & E & W2 & L2).
    exists s2. split; [exact E |]. split; [exact W2 | lia].
Qed.

Lemma wellFormed_deref (s : State) :
  wellFormed s -> exists t, deref (heap s) (timestamp (data s)) = Done t.
Proof.
  intros (_ & (a & t & Ha & Ht) & _). exists t. unfold deref.
  now rewrite Ha, Ht.
Qed.

Lemma malformed_fails (h : list Time) (t : Timestamp) (body : bytes) :
  malformed body = true ->
  exists e, json_Unmarshal_Timestamp h body t = (h, t, Some e).
Proof.
  unfold malformed, decodeError, json_Unmarshal_Timestamp.
  destruct (parseJSON body); [| eauto].
  unfold UnmarshalJSON.
  destruct (json_Unmarshal_TimestampJson (valueSlice body) (mkTimestampJson 0))
    as [raw [e |]]; cbn; [eauto | discriminate].
Qed.

Example malformed_fraction : malformed (rawBody "-19063572.50") = true.
Proof. vm_compute. reflexivity. Qed.

Example malformed_comma : malformed (rawBody "-10,1") = true.
Proof. vm_compute. reflexivity. Qed.

Example malformed_suffix : malformed (rawBody "-50f") = true.
Proof. vm_compute. reflexivity. Qed.

Example malformed_exponent : malformed (rawBody "0E0") = true.
Proof. vm_compute. reflexivity. Qed.

Example malformed_apple : malformed (rawBody "apple") = true.
Proof. vm_compute. reflexivity. Qed.

Example malformed_tree : malformed (rawBody "tree") = true.
Proof. vm_compute. reflexivity. Qed.

Example malformed_fruit : malformed (rawBody "1622366082fruit") = true.
Proof. vm_compute. reflexivity. Qed.

Example malformed_empty : malformed [] = true.
Proof. vm_compute. reflexivity. Qed.

Example wellformed_minus_100 : malformed (rawBody "-100") = false.
Proof. vm_compute. reflexivity. Qed.

Lemma Time_Unix_now : Time_Unix now = initialUnixTimestamp.
Proof. vm_compute. reflexivity. Qed.

Lemma getTimestampCall_nil_iff_error (n : Net) (s s' : State)
      (ts : option Z) (err : option error) :
  getTimestampCall n s = Done (s', (ts, err)) ->
  (ts = None <-> err <> None).
Proof.
  unfold getTimestampCall. destruct (roundTrip n _ s) as [[s1 reply] | |];
    cbn [bind]; try discriminate.
  destruct reply as [| code | resp].
  - intros E. inversion E; subst. split; [discriminate | reflexivity].
  - intros E. inversion E; subst. split; [discriminate | reflexivity].
  - destruct (json_Unmarshal_TimestampJson (RespBody resp) (mkTimestampJson 0))
      as [raw [e |]]; intros E; inversion E; subst.
    + split; [discriminate | reflexivity].
    + split; [discriminate | congruence].
Qed.

(** ** Concurrent callers *)

(** [getData] and [setData] are their goroutines run without
    interruption. *)
Lemma getData_runToReturn (s : State) :
  runToReturn CallGetData s
  = '(s', r) <- getData s ;;
    Done (mkGoroutine CallGetData (Returned (Some r)), s').
Proof.
  unfold runToReturn, getData, gstep. cbn [pc call].
  destruct (send 1 s) as [s1 | |] eqn:E; cbn [bind]; try reflexivity.
  cbn [pc call bind]. destruct (recv s1) as [[v s2] | |]; reflexivity.
Qed.

Lemma setData_runToReturn (newValue : Timestamp) (s : State) :
  runToReturn (CallSetData newValue) s
  = s' <- setData newValue s ;;
    Done (mkGoroutine (CallSetData newValue) (Returned None), s').
Proof.
  unfold runToReturn, setData, gstep. cbn [pc call].
  destruct (send 1 s) as [s1 | |] eqn:E; cbn [bind]; try reflexivity.
  cbn [pc call bind]. destruct (recv (assign newValue s1)) as [[v s2] | |];
    reflexivity.
Qed.

Lemma holders_app (a b : list Goroutine) :
  holders (a ++ b) = (holders a + holders b)%nat.
Proof. unfold holders. now rewrite filter_app, length_app. Qed.

Lemma holders_cons (g : Goroutine) (gs : list Goroutine) :
  holders (g :: gs) = ((if inside g then 1 else 0) + holders gs)%nat.
Proof. unfold holders. cbn [filter]. destruct (inside g); reflexivity. Qed.

(** How one step of a goroutine moves the channel and its own place. *)
Lemma gstep_cases (g g' : Goroutine) (s s' : State) :
  gstep g s = Done (g', s') ->
  (pc g = AtEntry /\ pc g' = InBody /\ l s = [] /\ l s' = [1])
  \/ (pc g = InBody /\ (exists r, pc g' = AtDefer r) /\ l s' = l s)
  \/ (exists r v, pc g = AtDefer r /\ pc g' = Returned r /\ l s = v :: l s').
Proof.
  unfold gstep. destruct (pc g) as [| | r | r] eqn:P.
  - unfold send. destruct (l s) as [| v q] eqn:Hl; cbn; [| discriminate].
    intros E. inversion E; subst. left. cbn. auto.
  - destruct (call g); intros E; inversion E; subst; right; left; cbn; eauto.
  - unfold recv. destruct (l s) as [| v q] eqn:Hl; cbn; [discriminate |].
    intros E. inversion E; subst. right; right. exists r, v. cbn. auto.
  - discriminate.
Qed.

Lemma inside_pc (g : Goroutine) :
  inside g = match pc g with
             | InBody | AtDefer _ => true
             | AtEntry | Returned _ => false
             end.
Proof. reflexivity. Qed.

Lemma step_exclusive (w w' : World) :
  exclusive w -> step w w' -> exclusive w' /\ stepKind w w'.
Proof.
  intros [Hlen Hle] St. destruct St as [s gs c | s s' pre g g' post E].
  - cbn [shared pool] in *.
    assert (H : holders (gs ++ [mkGoroutine c AtEntry]) = holders gs).
    { rewrite holders_app. cbn. lia. }
    unfold exclusive, stepKind. cbn [shared pool]. rewrite H.
    split; [split; assumption |]. right; right. auto.
  - cbn [shared pool] in *.
    rewrite holders_app, holders_cons in Hlen, Hle.
    unfold exclusive, stepKind. cbn [shared pool].
    rewrite !holders_app, !holders_cons, !inside_pc.
    rewrite inside_pc in Hlen, Hle. unfold permit.
    destruct (gstep_cases g g' s s' E)
      as [(P & P' & L & L') | [(P & (r & P') & L') | (r & v & P & P' & L)]];
      rewrite P, P' in *; cbv beta iota in Hlen, Hle.
    + rewrite L, L' in *. cbn [length] in *.
      split; [split; lia |]. left. repeat split; lia.
    + rewrite L' in *. split; [split; lia |]. right; right.
      split; [reflexivity | lia].
    + rewrite L in *. cbn [length] in *.
      assert (Hq : l s' = []) by (destruct (l s'); [reflexivity | cbn in *; lia]).
      rewrite Hq in *. cbn [length] in *.
      split; [split; lia |]. right; left. repeat split; lia.
Qed.

Lemma reachable_exclusive (w : World) : reachable w -> exclusive w.
Proof.
  induction 1 as [| w w' _ IH St].
  - split; cbn; lia.
  - exact (proj1 (step_exclusive w w' IH St)).
Qed.

Lemma exclusive_two_states (w : World) :
  exclusive w ->
  (permit (shared w) = Some FREE /\ holders (pool w) = 0%nat)
  \/ (permit (shared w) = Some HELD /\ holders (pool w) = 1%nat).
Proof.
  intros [Hlen Hle]. unfold permit.
  destruct (l (shared w)) as [| v [| v' q]]; cbn [length] in Hlen.
  - left. split; [reflexivity | lia].
  - right. split; [reflexivity | lia].
  - lia.
Qed.

Lemma holders_in (g : Goroutine) (gs : list Goroutine) :
  In g gs -> inside g = true -> (1 <= holders gs)%nat.
Proof.
  intros Hin Hg. apply in_split in Hin. destruct Hin as (pre & post & ->).
  rewrite holders_app, holders_cons, Hg. lia.
Qed.

(** ** A value reads the same whatever follows it

    The decoder hands [UnmarshalJSON] the bytes of the value alone, and
    [UnmarshalJSON] parses them again.  The lemmas below show that the
    second parse finds the value the first one found. *)

Lemma takeDigits_split (s ds r : bytes) :
  takeDigits s = (ds, r) -> s = ds ++ r /\ forallb isDigit ds = true.
Proof.
  revert ds r. induction s as [| c s IH]; cbn [takeDigits]; intros ds r E.
  - inversion E. auto.
  - destruct (isDigit c) eqn:Hc.
    + destruct (takeDigits s) as [ds' r'] eqn:E'. inversion E; subst.
      destruct (IH _ _ eq_refl) as [-> H]. cbn. now rewrite Hc.
    + inversion E. auto.
Qed.

Lemma takeDigits_stable (ds t : bytes) :
  forallb isDigit ds = true -> headNot isDigit t = true ->
  takeDigits (ds ++ t) = (ds, t).
Proof.
  intros Hds Ht. induction ds as [| d ds IH]; cbn [app].
  - destruct t as [| c t]; [reflexivity |]. cbn in Ht. cbn [takeDigits].
    apply negb_true_iff in Ht. now rewrite Ht.
  - cbn in Hds. apply andb_prop in Hds. destruct Hds as [Hd Hds].
    cbn [takeDigits]. now rewrite Hd, IH.
Qed.

Lemma stops_parts (t : bytes) :
  stops t = true ->
  headNot isDigit t = true
  /\ headNot (fun c => (c =? ".")%char) t = true
  /\ headNot (fun c => (c =? "e")%char || (c =? "E")%char) t = true.
Proof.
  unfold stops, continuesNumber. destruct t as [| c t]; cbn [headNot]; [auto |].
  intros H. apply negb_true_iff in H.
  destruct (isDigit c), (c =? ".")%char, (c =? "e")%char, (c =? "E")%char;
    cbn in *; try discriminate; auto.
Qed.

Lemma scanInt_stable (s ip r : bytes) :
  scanInt s = Some (ip, r) ->
  s = ip ++ r
  /\ (exists c tl, ip = c :: tl /\ isDigit c = true)
  /\ forall t, headNot isDigit t = true -> scanInt (ip ++ t) = Some (ip, t).
Proof.
  unfold scanInt. destruct s as [| c s]; [discriminate |].
  destruct (c =? "0")%char eqn:Hz.
  - intros E. inversion E; subst. split; [reflexivity |]. split.
    + apply Ascii.eqb_eq in Hz. subst c. eauto.
    + intros t _. cbn [app]. now rewrite Hz.
  - destruct (isDigit c) eqn:Hc; [| discriminate].
    destruct (takeDigits s) as [ds r'] eqn:T. intros E. inversion E; subst.
    destruct (takeDigits_split _ _ _ T) as [-> Hds].
    split; [reflexivity |]. split; [eauto |].
    intros t Ht. cbn [app]. rewrite Hz, Hc, takeDigits_stable by assumption.
    reflexivity.
Qed.

Lemma scanFrac_stable (s fp r : bytes) :
  scanFrac s = Some (fp, r) ->
  s = fp ++ r
  /\ ((fp = [] /\ headNot (fun c => (c =? ".")%char) r = true)
      \/ (exists tl, fp = "."%char :: tl
                     /\ forall t, headNot isDigit t = true ->
                                  scanFrac (fp ++ t) = Some (fp, t))).
Proof.
  unfold scanFrac. destruct s as [| c s].
  - intros E. inversion E. auto.
  - destruct (c =? ".")%char eqn:Hd.
    + apply Ascii.eqb_eq in Hd. subst c.
      destruct (takeDigits s) as [ds r'] eqn:T.
      destruct ds as [| d ds]; [discriminate |].
      intros E. inversion E; subst.
      destruct (takeDigits_split _ _ _ T) as [-> Hds].
      split; [reflexivity |]. right. eexists. split; [reflexivity |].
      intros t Ht. cbn [app]. change (("." =? ".")%char) with true. cbv iota.
      change (d :: ds ++ t) with ((d :: ds) ++ t).
      rewrite takeDigits_stable by assumption. reflexivity.
    + intros E. inversion E; subst. split; [reflexivity |]. left.
      split; [reflexivity |]. cbn. now rewrite Hd.
Qed.

Lemma scanFrac_absent (t : bytes) :
  headNot (fun c => (c =? ".")%char) t = true -> scanFrac t = Some ([], t).
Proof.
  unfold scanFrac. destruct t as [| c t]; [reflexivity |]. cbn.
  intros H. apply negb_true_iff in H. now rewrite H.
Qed.

Lemma scanExp_stable (s ep r : bytes) :
  scanExp s = Some (ep, r) ->
  s = ep ++ r
  /\ ((ep = []
       /\ headNot (fun c => (c =? "e")%char || (c =? "E")%char) r = true)
      \/ (exists c tl, ep = c :: tl
                       /\ ((c =? "e")%char || (c =? "E")%char) = true
                       /\ forall t, headNot isDigit t = true ->
                                    scanExp (ep ++ t) = Some (ep, t))).
Proof.
  unfold scanExp. destruct s as [| c s].
  - intros E. inversion E. auto.
  - destruct ((c =? "e")%char || (c =? "E")%char) eqn:He.
    + destruct s as [| c' s'].
      { cbn. discriminate. }
      destruct ((c' =? "+")%char || (c' =? "-")%char) eqn:Hs.
      * destruct (takeDigits s') as [ds r'] eqn:T.
        destruct ds as [| d ds]; [discriminate |].
        intros E. inversion E; subst.
        destruct (takeDigits_split _ _ _ T) as [-> Hds].
        split; [reflexivity |]. right. eexists _, _.
        split; [reflexivity |]. split; [exact He |].
        intros t Ht. cbn [app]. rewrite He, Hs.
        change (d :: ds ++ t) with ((d :: ds) ++ t).
        rewrite takeDigits_stable by assumption. reflexivity.
      * destruct (takeDigits (c' :: s')) as [ds r'] eqn:T.
        destruct ds as [| d ds]; [discriminate |].
        intros E. inversion E; subst.
        destruct (takeDigits_split _ _ _ T) as [Es Hds].
        cbn [app] in Es. inversion Es; subst.
        split; [reflexivity |]. right. eexists _, _.
        split; [reflexivity |]. split; [exact He |].
        intros t Ht. cbn [app]. rewrite He, Hs.
        change (d :: ds ++ t) with ((d :: ds) ++ t).
        rewrite takeDigits_stable by assumption. reflexivity.
    + intros E. inversion E; subst. split; [reflexivity |]. left.
      split; [reflexivity |]. cbn. now rewrite He.
Qed.

Lemma scanExp_absent (t : bytes) :
  headNot (fun c => (c =? "e")%char || (c =? "E")%char) t = true ->
  scanExp t = Some ([], t).
Proof.
  unfold scanExp. destruct t as [| c t]; [reflexivity |]. cbn.
  intros H. apply negb_true_iff in H. now rewrite H.
Qed.

Lemma headNot_app (f : ascii -> bool) (c : ascii) (tl t : bytes) :
  f c = false -> headNot f ((c :: tl) ++ t) = true.
Proof. intros H. cbn. now rewrite H. Qed.

Lemma isDigit_not_mark (c : ascii) :
  isDigit c = true ->
  (c =? "-")%char = false /\ (c =? ".")%char = false
  /\ ((c =? "e")%char || (c =? "E")%char) = false.
Proof.
  destruct c as [[] [] [] [] [] [] [] []]; vm_compute; intros; try discriminate;
    repeat split.
Qed.

Lemma mark_not_digit (c : ascii) :
  ((c =? "e")%char || (c =? "E")%char) = true ->
  isDigit c = false /\ (c =? ".")%char = false.
Proof.
  destruct c as [[] [] [] [] [] [] [] []]; vm_compute; intros; try discriminate;
    repeat split.
Qed.

(** A number read before [r] is read the same before any [t] that
    cannot continue it. *)
Lemma scanNumber_stable (s lit r : bytes) :
  scanNumber s = Some (lit, r) ->
  s = lit ++ r
  /\ lit <> []
  /\ forall t, stops t = true -> scanNumber (lit ++ t) = Some (lit, t).
Proof.
  unfold scanNumber.
  destruct (scanSign s) as [sg s0] eqn:Esg.
  destruct (scanInt s0) as [[ip s1] |] eqn:Ei; [| discriminate].
  destruct (scanFrac s1) as [[fp s2] |] eqn:Ef; [| discriminate].
  destruct (scanExp s2) as [[ep s3] |] eqn:Ee; [| discriminate].
  intros E. inversion E; subst lit r. clear E.
  destruct (scanInt_stable _ _ _ Ei) as (-> & (c & tl & -> & Hc) & Si).
  destruct (scanFrac_stable _ _ _ Ef) as (-> & Sf).
  destruct (scanExp_stable _ _ _ Ee) as (-> & Se).
  destruct (isDigit_not_mark c Hc) as (Hm & Hdot & Hmark).
  assert (Es : s = sg ++ (c :: tl) ++ fp ++ ep ++ s3
               /\ forall t, scanSign (sg ++ (c :: tl) ++ t)
                            = (sg, (c :: tl) ++ t)).
  { unfold scanSign in *. destruct s as [| c0 s']; cbn [app] in *.
    - inversion Esg.
    - destruct (c0 =? "-")%char eqn:H0; inversion Esg; subst; cbn [app].
      + split; [reflexivity |]. intros t. now rewrite H0.
      + split; [reflexivity |]. intros t. now rewrite Hm. }
  destruct Es as [-> Ss].
  split; [now rewrite <- !app_assoc |].
  split; [destruct sg; discriminate |].
  intros t Ht. destruct (stops_parts t Ht) as (Td & Tdot & Tmark).
  rewrite <- !app_assoc, Ss.
  (* the exponent *)
  assert (Xe : scanExp (ep ++ t) = Some (ep, t)
               /\ headNot isDigit (ep ++ t) = true
               /\ headNot (fun c => (c =? ".")%char) (ep ++ t) = true).
  { destruct Se as [(-> & _) | (ce & te & -> & Hce & Se)].
    - cbn [app]. split; [now apply scanExp_absent | auto].
    - destruct (mark_not_digit ce Hce) as (Hd1 & Hd2).
      split; [now apply Se |]. split; now apply headNot_app. }
  destruct Xe as (Xe & Xd & Xdot).
  (* the fraction *)
  assert (Xf : scanFrac (fp ++ ep ++ t) = Some (fp, ep ++ t)
               /\ headNot isDigit (fp ++ ep ++ t) = true).
  { destruct Sf as [(-> & _) | (tf & -> & Sf)].
    - cbn [app]. split; [now apply scanFrac_absent | assumption].
    - split; [now apply Sf |]. now apply headNot_app. }
  destruct Xf as (Xf & Xd').
  rewrite (Si _ Xd'), Xf, Xe. reflexivity.
Qed.

Lemma stripPrefix_stable (p s r : bytes) :
  stripPrefix p s = Some r ->
  s = p ++ r /\ forall t, stripPrefix p (p ++ t) = Some t.
Proof.
  revert s. induction p as [| a p IH]; intros s E.
  - cbn in E. destruct s; inversion E; auto.
  - destruct s as [| b s]; cbn [stripPrefix] in E; [discriminate |].
    destruct (a =? b)%char eqn:Hab; [| discriminate].
    apply Ascii.eqb_eq in Hab. subst b.
    destruct (IH s E) as [-> H]. split; [reflexivity |].
    intros t. cbn [app stripPrefix]. rewrite Ascii.eqb_refl. apply H.
Qed.

Lemma skipSpace_split (s : bytes) :
  exists ws, s = ws ++ skipSpace s /\ forallb isSpace ws = true.
Proof.
  induction s as [| c s (ws & E & H)]; cbn [skipSpace].
  - exists []. auto.
  - destruct (isSpace c) eqn:Hc.
    + exists (c :: ws). cbn. rewrite Hc, H. split; [now f_equal | reflexivity].
    + exists []. auto.
Qed.

Lemma skipSpace_head (c : ascii) (r : bytes) :
  isSpace c = false -> skipSpace (c :: r) = c :: r.
Proof. intros H. cbn [skipSpace]. now rewrite H. Qed.

Lemma skipSpace_nonspace (s : bytes) (c : ascii) (r : bytes) :
  skipSpace s = c :: r -> isSpace c = false.
Proof.
  induction s as [| d s IH]; cbn [skipSpace]; [discriminate |].
  destruct (isSpace d) eqn:Hd; [exact IH |].
  intros E. inversion E; subst. exact Hd.
Qed.

(** Space before [c :: r] is skipped whatever follows [c]. *)
Lemma skipSpace_to (s : bytes) (c : ascii) (r : bytes) :
  skipSpace s = c :: r ->
  exists ws, s = ws ++ c :: r
             /\ forallb isSpace ws = true
             /\ forall t, skipSpace (ws ++ c :: t) = c :: t.
Proof.
  intros E. destruct (skipSpace_split s) as (ws & Es & Hws).
  pose proof (skipSpace_nonspace s c r E) as Hc.
  rewrite E in Es. exists ws. split; [exact Es |]. split; [exact Hws |].
  intros t. rewrite skipSpace_spaces by exact Hws. now apply skipSpace_head.
Qed.

Lemma isSpace_not_number (c : ascii) :
  isSpace c = true -> continuesNumber c = false.
Proof.
  destruct c as [[] [] [] [] [] [] [] []]; vm_compute; intros; try discriminate;
    reflexivity.
Qed.

Lemma stops_spaces (ws : bytes) (c : ascii) (t : bytes) :
  forallb isSpace ws = true -> continuesNumber c = false ->
  stops (ws ++ c :: t) = true.
Proof.
  intros Hws Hc. destruct ws as [| w ws]; cbn [app]; unfold stops; cbn.
  - now rewrite Hc.
  - cbn in Hws. apply andb_prop in Hws. destruct Hws as [Hw _].
    now rewrite (isSpace_not_number w Hw).
Qed.

Lemma separator_not_number (c : ascii) :
  ((c =? ",")%char || (c =? "}")%char || (c =? "]")%char) = true ->
  continuesNumber c = false.
Proof.
  destruct c as [[] [] [] [] [] [] [] []]; vm_compute; intros; try discriminate;
    reflexivity.
Qed.

(** Space before a value that starts with [c] is skipped whatever the
    value and what follows it are. *)
Lemma skipSpace_before (s : bytes) (c : ascii) (p r : bytes) :
  skipSpace s = (c :: p) ++ r ->
  exists ws, s = ws ++ (c :: p) ++ r
             /\ forallb isSpace ws = true
             /\ forall p' t, skipSpace (ws ++ (c :: p') ++ t) = (c :: p') ++ t.
Proof.
  cbn [app]. intros E. destruct (skipSpace_to s c (p ++ r) E) as (ws & Es & Hws & H).
  exists ws. split; [exact Es |]. split; [exact Hws |].
  intros p' t. apply H.
Qed.

Lemma inRange_dq (lo hi : Z) : 128 <= lo -> inRange lo hi dq = false.
Proof.
  intros H. unfold inRange. change (byteVal dq) with 34.
  destruct (Z.leb_spec lo 34); [lia | reflexivity].
Qed.

(** Inside a string literal the width of a rune does not depend on
    what follows the closing quote. *)
Lemma runeLen_stable (c : ascii) (p r t : bytes) :
  runeLen (c :: p ++ dq :: r) = runeLen (c :: p ++ dq :: t).
Proof.
  assert (Q : isCont dq = false) by reflexivity.
  assert (I : forall lo hi, 128 <= lo -> inRange lo hi dq = false)
    by apply inRange_dq.
  destruct p as [| a [| b [| d p']]]; cbn [app]; [| | | reflexivity].
  - unfold runeLen. rewrite Q.
    destruct r as [| r1 [| r2 r']], t as [| t1 [| t2 t']];
      rewrite ?I by lia; cbn [andb]; reflexivity.
  - unfold runeLen. rewrite Q, ?andb_false_r.
    destruct r as [| r1 r'], t as [| t1 t']; cbn [andb]; reflexivity.
  - unfold runeLen. rewrite Q, ?andb_false_r. reflexivity.
Qed.

(** A string literal is read the same whatever follows its closing
    quote. *)
Lemma scanString_stable (n : nat) :
  forall s pend copy acc x r,
    (length s <= n)%nat ->
    scanString s pend copy acc = Some (x, r) ->
    exists p, s = p ++ dq :: r
              /\ forall t, scanString (p ++ dq :: t) pend copy acc = Some (x, t).
Proof.
  induction n as [| n IH]; intros s pend copy acc x r Hn E.
  { destruct s; [discriminate | cbn in Hn; lia]. }
  destruct s as [| c s]; [discriminate |].
  cbn [length] in Hn. cbn [scanString] in E.
  destruct copy as [| k].
  2:{ apply IH in E; [| lia]. destruct E as (p & -> & H).
      exists (c :: p). split; [reflexivity |]. intros t. cbn [app scanString].
      apply H. }
  destruct (c =? dq)%char eqn:Hq.
  { apply Ascii.eqb_eq in Hq. subst c. inversion E; subst.
    exists []. split; [reflexivity |]. intros t. cbn [app scanString].
    now rewrite Ascii.eqb_refl. }
  destruct (c =? "\")%char eqn:Hb.
  { destruct s as [| e s1]; [discriminate |]. cbn [length] in Hn.
    destruct (simpleEscape e) as [x0 |] eqn:Hs.
    - apply IH in E; [| lia]. destruct E as (p & -> & H).
      exists (c :: e :: p). split; [reflexivity |]. intros t.
      cbn [app scanString]. rewrite Hq, Hb, Hs. apply H.
    - destruct (e =? "u")%char eqn:Hu; [| discriminate].
      destruct s1 as [| h1 [| h2 [| h3 [| h4 r2]]]]; try discriminate.
      destruct (hex4 h1 h2 h3 h4) as [z |] eqn:Hh; [| discriminate].
      destruct (pushEscapedRune z pend acc) as [pend' acc'] eqn:Hp.
      apply IH in E; [| cbn [length] in Hn; lia]. destruct E as (p & -> & H).
      exists (c :: e :: h1 :: h2 :: h3 :: h4 :: p). split; [reflexivity |].
      intros t. cbn [app scanString]. rewrite Hq, Hb, Hs, Hu, Hh, Hp.
      apply H. }
  destruct (byteVal c <? 32) eqn:H32; [discriminate |].
  destruct (byteVal c <? 128) eqn:H128.
  { apply IH in E; [| lia]. destruct E as (p & -> & H).
    exists (c :: p). split; [reflexivity |]. intros t.
    cbn [app scanString]. rewrite Hq, Hb, H32, H128. apply H. }
  destruct (runeLen (c :: s)) as [| k] eqn:Hr.
  - apply IH in E; [| lia]. destruct E as (p & -> & H).
    exists (c :: p). split; [reflexivity |]. intros t.
    cbn [app scanString]. rewrite Hq, Hb, H32, H128.
    rewrite (runeLen_stable c p t r), Hr. apply H.
  - apply IH in E; [| lia]. destruct E as (p & -> & H).
    exists (c :: p). split; [reflexivity |]. intros t.
    cbn [app scanString]. rewrite Hq, Hb, H32, H128.
    rewrite (runeLen_stable c p t r), Hr. apply H.
Qed.

Lemma parseValue_nil (fuel : nat) (d : Z) (x : JValue * bytes) :
  parseValue fuel d [] <> POk x.
Proof. destruct fuel; discriminate. Qed.

Lemma parseMembers_nil (fuel : nat) (d : Z) (acc : list (bytes * JValue))
      (x : JValue * bytes) :
  parseMembers fuel d [] acc <> POk x.
Proof. destruct fuel; discriminate. Qed.

(** The prefix a successful parse consumed is not empty. *)
Lemma consumed_cons (p r : bytes) (c : ascii) (s : bytes) :
  c :: s = p ++ r -> p <> [] -> exists p', p = c :: p'.
Proof.
  destruct p as [| c' p']; [congruence |]. cbn. intros E _.
  inversion E. eauto.
Qed.

Lemma parse_stable (fuel : nat) :
  (forall d s v r,
      parseValue fuel d s = POk (v, r) ->
      exists p, s = p ++ r
                /\ forall t, stops t = true ->
                             parseValue fuel d (p ++ t) = POk (v, t))
  /\ (forall d s acc v r,
         parseMembers fuel d s acc = POk (v, r) ->
         exists p, s = p ++ r
                   /\ forall t, parseMembers fuel d (p ++ t) acc = POk (v, t))
  /\ (forall d s acc v r,
         parseElems fuel d s acc = POk (v, r) ->
         exists p, s = p ++ r
                   /\ (forall t, stops (p ++ t) = true)
                   /\ forall t, parseElems fuel d (p ++ t) acc = POk (v, t)).
Proof.
  induction fuel as [| fuel (IHv & IHm & IHe)].
  { repeat split; intros; discriminate. }
  split; [| split].
  - (* parseValue *)
    intros d s v r E. cbn [parseValue] in E.
    destruct s as [| c s0]; [discriminate |].
    destruct (c =? "{")%char eqn:C1.
    { destruct (maxNestingDepth <? d + 1) eqn:Hd; [discriminate |].
      destruct (skipSpace s0) as [| c1 r1] eqn:K; [discriminate |].
      destruct (skipSpace_to _ _ _ K) as (ws & -> & Hws & Sk).
      destruct (c1 =? "}")%char eqn:C2.
      - inversion E; subst. exists (c :: ws ++ [c1]). split.
        + cbn [app]. now rewrite <- app_assoc.
        + intros t _. cbn [app parseValue]. rewrite C1, Hd.
          rewrite <- app_assoc. cbn [app]. rewrite Sk, C2. reflexivity.
      - destruct (IHm _ _ _ _ _ E) as (pm & Em & Hm).
        assert (Ne : pm <> []).
        { intros ->. specialize (Hm []). cbn [app] in Hm.
          now apply parseMembers_nil in Hm. }
        destruct (consumed_cons _ _ _ _ Em Ne) as (pm' & ->).
        cbn [app] in Em. inversion Em; subst r1.
        exists (c :: ws ++ c1 :: pm'). split.
        + cbn [app]. rewrite <- app_assoc. reflexivity.
        + intros t _. cbn [app parseValue]. rewrite C1, Hd.
          rewrite <- app_assoc. cbn [app]. rewrite Sk, C2. apply Hm. }
    destruct (c =? "[")%char eqn:C2.
    { destruct (maxNestingDepth <? d + 1) eqn:Hd; [discriminate |].
      destruct (skipSpace s0) as [| c1 r1] eqn:K; [discriminate |].
      destruct (skipSpace_to _ _ _ K) as (ws & -> & Hws & Sk).
      destruct (c1 =? "]")%char eqn:C3.
      - inversion E; subst. exists (c :: ws ++ [c1]). split.
        + cbn [app]. now rewrite <- app_assoc.
        + intros t _. cbn [app parseValue]. rewrite C1, C2, Hd.
          rewrite <- app_assoc. cbn [app]. rewrite Sk, C3. reflexivity.
      - destruct (parseValue fuel (d + 1) (c1 :: r1)) as [[v1 r2] | |] eqn:Ev;
          try discriminate.
        destruct (IHv _ _ _ _ Ev) as (pv & Epv & Hv).
        destruct (IHe _ _ _ _ _ E) as (pe & -> & Se & He).
        assert (Ne : pv <> []).
        { intros ->. specialize (Hv [] eq_refl). cbn [app] in Hv.
          now apply parseValue_nil in Hv. }
        destruct (consumed_cons _ _ _ _ Epv Ne) as (pv' & ->).
        cbn [app] in Epv. inversion Epv; subst r1.
        exists (c :: ws ++ c1 :: pv' ++ pe). split.
        + cbn [app]. rewrite <- !app_assoc. cbn [app].
          now rewrite <- !app_assoc.
        + intros t _. cbn [app parseValue]. rewrite C1, C2, Hd.
          rewrite <- !app_assoc. cbn [app]. rewrite Sk, C3.
          rewrite <- !app_assoc.
          change (c1 :: pv' ++ pe ++ t) with ((c1 :: pv') ++ pe ++ t).
          rewrite (Hv _ (Se t)). apply He. }
    destruct (c =? dq)%char eqn:C3.
    { destruct (scanString s0 None 0 []) as [[str r1] |] eqn:Es;
        [| discriminate].
      inversion E; subst.
      destruct (scanString_stable _ _ _ _ _ _ _ (le_n _) Es) as (p & -> & H).
      exists (c :: p ++ [dq]). split.
      - cbn [app]. now rewrite <- app_assoc.
      - intros t _. cbn [app parseValue]. rewrite C1, C2, C3.
        rewrite <- app_assoc. cbn [app]. now rewrite H. }
    destruct (c =? "t")%char eqn:C4.
    { destruct (stripPrefix (bytesOf "rue") s0) as [r1 |] eqn:Es;
        [| discriminate].
      inversion E; subst. destruct (stripPrefix_stable _ _ _ Es) as (-> & H).
      exists (c :: bytesOf "rue"). split; [reflexivity |].
      intros t _. cbn [parseValue]. change ((c :: bytesOf "rue") ++ t)
        with (c :: bytesOf "rue" ++ t).
      cbn [parseValue]. rewrite C1, C2, C3, C4, H. reflexivity. }
    destruct (c =? "f")%char eqn:C5.
    { destruct (stripPrefix (bytesOf "alse") s0) as [r1 |] eqn:Es;
        [| discriminate].
      inversion E; subst. destruct (stripPrefix_stable _ _ _ Es) as (-> & H).
      exists (c :: bytesOf "alse"). split; [reflexivity |].
      intros t _. change ((c :: bytesOf "alse") ++ t)
        with (c :: bytesOf "alse" ++ t).
      cbn [parseValue]. rewrite C1, C2, C3, C4, C5, H. reflexivity. }
    destruct (c =? "n")%char eqn:C6.
    { destruct (stripPrefix (bytesOf "ull") s0) as [r1 |] eqn:Es;
        [| discriminate].
      inversion E; subst. destruct (stripPrefix_stable _ _ _ Es) as (-> & H).
      exists (c :: bytesOf "ull"). split; [reflexivity |].
      intros t _. change ((c :: bytesOf "ull") ++ t)
        with (c :: bytesOf "ull" ++ t).
      cbn [parseValue]. rewrite C1, C2, C3, C4, C5, C6, H. reflexivity. }
    destruct (scanNumber (c :: s0)) as [[lit r1] |] eqn:Es; [| discriminate].
    inversion E; subst.
    destruct (scanNumber_stable _ _ _ Es) as (El & Ne & H).
    destruct (consumed_cons _ _ _ _ El Ne) as (lit' & ->).
    exists (c :: lit'). split; [exact El |].
    intros t Ht. pose proof (H t Ht) as Hn. cbn [app] in *.
    cbn [parseValue]. rewrite C1, C2, C3, C4, C5, C6, Hn. reflexivity.
  - (* parseMembers *)
    intros d s acc v r E. cbn [parseMembers] in E.
    destruct s as [| c s0]; [discriminate |].
    destruct (c =? dq)%char eqn:C1; [| discriminate].
    destruct (scanString s0 None 0 []) as [[key r1] |] eqn:Es;
      [| discriminate].
    destruct (scanString_stable _ _ _ _ _ _ _ (le_n _) Es) as (pk & -> & Hk).
    destruct (skipSpace r1) as [| c2 r2] eqn:K1; [discriminate |].
    destruct (skipSpace_to _ _ _ K1) as (ws1 & -> & Hws1 & Sk1).
    destruct (c2 =? ":")%char eqn:C2; [| discriminate].
    destruct (parseValue fuel d (skipSpace r2)) as [[v1 r3] | |] eqn:Ev;
      try discriminate.
    destruct (IHv _ _ _ _ Ev) as (pv & Epv & Hv).
    destruct (skipSpace r3) as [| c4 r4] eqn:K3; [discriminate |].
    destruct (skipSpace_to _ _ _ K3) as (ws3 & -> & Hws3 & Sk3).
    assert (Sep : continuesNumber c4 = false).
    { apply separator_not_number.
      destruct (c4 =? ",")%char, (c4 =? "}")%char; try discriminate;
        reflexivity. }
    assert (Ne : pv <> []).
    { intros ->. specialize (Hv [] eq_refl). cbn [app] in Hv.
      now apply parseValue_nil in Hv. }
    destruct pv as [| cv pv']; [congruence |].
    destruct (skipSpace_before _ _ _ _ Epv) as (ws2 & -> & Hws2 & Sk2).
    destruct (c4 =? ",")%char eqn:C4.
    + destruct (IHm _ _ _ _ _ E) as (pm & Epm & Hm).
      assert (Nm : pm <> []).
      { intros ->. specialize (Hm []). cbn [app] in Hm.
        now apply parseMembers_nil in Hm. }
      destruct pm as [| cm pm']; [congruence |].
      destruct (skipSpace_before _ _ _ _ Epm) as (ws4 & -> & Hws4 & Sk4).
      exists (c :: pk ++ dq :: ws1 ++ c2 :: ws2 ++ (cv :: pv')
                ++ ws3 ++ c4 :: ws4 ++ (cm :: pm')). split.
      * cbn [app]. repeat (rewrite <- ?app_assoc; cbn [app]; f_equal).
      * intros t. cbn [app] in Hv, Hm, Sk2, Sk4.
        cbn [app parseMembers]. rewrite C1.
        repeat (rewrite <- ?app_assoc; cbn [app]).
        rewrite Hk, Sk1, C2, Sk2.
        rewrite Hv by (apply stops_spaces; assumption).
        rewrite Sk3, C4, Sk4. apply Hm.
    + destruct (c4 =? "}")%char eqn:C5; [| discriminate].
      inversion E; subst.
      exists (c :: pk ++ dq :: ws1 ++ c2 :: ws2 ++ (cv :: pv')
                ++ ws3 ++ [c4]). split.
      * cbn [app]. repeat (rewrite <- ?app_assoc; cbn [app]; f_equal).
      * intros t. cbn [app] in Hv, Sk2.
        cbn [app parseMembers]. rewrite C1.
        repeat (rewrite <- ?app_assoc; cbn [app]).
        rewrite Hk, Sk1, C2, Sk2.
        rewrite Hv by (apply stops_spaces; assumption).
        rewrite Sk3, C4, C5. reflexivity.
  - (* parseElems *)
    intros d s acc v r E. cbn [parseElems] in E.
    destruct (skipSpace s) as [| c r0] eqn:K; [discriminate |].
    destruct (skipSpace_to _ _ _ K) as (ws & -> & Hws & Sk).
    assert (Sep : continuesNumber c = false).
    { apply separator_not_number.
      destruct (c =? ",")%char, (c =? "]")%char; try discriminate;
        rewrite ?orb_true_r; reflexivity. }
    destruct (c =? ",")%char eqn:C1.
    + destruct (parseValue fuel d (skipSpace r0)) as [[v1 r1] | |] eqn:Ev;
        try discriminate.
      destruct (IHv _ _ _ _ Ev) as (pv & Epv & Hv).
      destruct (IHe _ _ _ _ _ E) as (pe & -> & Se & He).
      assert (Ne : pv <> []).
      { intros ->. specialize (Hv [] eq_refl). cbn [app] in Hv.
        now apply parseValue_nil in Hv. }
      destruct pv as [| cv pv']; [congruence |].
      destruct (skipSpace_before _ _ _ _ Epv) as (ws2 & -> & Hws2 & Sk2).
      exists (ws ++ c :: ws2 ++ (cv :: pv') ++ pe). split.
      * repeat (rewrite <- ?app_assoc; cbn [app]; f_equal).
      * split.
        { intros t. rewrite <- app_assoc. cbn [app].
          now apply stops_spaces. }
        intros t. cbn [app] in Hv, Sk2. cbn [parseElems].
        repeat (rewrite <- ?app_assoc; cbn [app]).
        rewrite Sk, C1, Sk2. rewrite (Hv _ (Se t)). apply He.
    + destruct (c =? "]")%char eqn:C2; [| discriminate].
      inversion E; subst.
      exists (ws ++ [c]). split; [now rewrite <- app_assoc |]. split.
      * intros t. rewrite <- app_assoc. cbn [app]. now apply stops_spaces.
      * intros t. cbn [parseElems]. rewrite <- app_assoc. cbn [app].
        rewrite Sk, C1, C2. reflexivity.
Qed.

(** Once the fuel suffices, more fuel changes nothing. *)
Lemma parse_fuel_more (fuel : nat) :
  (forall d s fuel',
      parseValue fuel d s <> PFuel -> (fuel <= fuel')%nat ->
      parseValue fuel' d s = parseValue fuel d s)
  /\ (forall d s acc fuel',
         parseMembers fuel d s acc <> PFuel -> (fuel <= fuel')%nat ->
         parseMembers fuel' d s acc = parseMembers fuel d s acc)
  /\ (forall d s acc fuel',
         parseElems fuel d s acc <> PFuel -> (fuel <= fuel')%nat ->
         parseElems fuel' d s acc = parseElems fuel d s acc).
Proof.
  induction fuel as [| fuel (IHv & IHm & IHe)].
  { repeat split; intros; cbn in *; congruence. }
  split; [| split].
  - intros d s fuel' H L. destruct fuel' as [| fuel']; [lia |].
    cbn [parseValue] in *. destruct s as [| c s0]; [reflexivity |].
    destruct (c =? "{")%char.
    { destruct (maxNestingDepth <? d + 1); [reflexivity |].
      destruct (skipSpace s0) as [| c1 r1]; [reflexivity |].
      destruct (c1 =? "}")%char; [reflexivity |].
      apply IHm; [exact H | lia]. }
    destruct (c =? "[")%char; [| reflexivity].
    destruct (maxNestingDepth <? d + 1); [reflexivity |].
    destruct (skipSpace s0) as [| c1 r1]; [reflexivity |].
    destruct (c1 =? "]")%char; [reflexivity |].
    destruct (parseValue fuel (d + 1) (c1 :: r1)) as [[v1 r2] | |] eqn:Ev.
    + rewrite (IHv (d + 1) (c1 :: r1) fuel') by (first [rewrite Ev; discriminate | lia]).
      rewrite Ev. apply IHe; [exact H | lia].
    + rewrite (IHv (d + 1) (c1 :: r1) fuel') by (first [rewrite Ev; discriminate | lia]).
      now rewrite Ev.
    + congruence.
  - intros d s acc fuel' H L. destruct fuel' as [| fuel']; [lia |].
    cbn [parseMembers] in *. destruct s as [| c s0]; [reflexivity |].
    destruct (c =? dq)%char; [| reflexivity].
    destruct (scanString s0 None 0 []) as [[key r1] |]; [| reflexivity].
    destruct (skipSpace r1) as [| c2 r2]; [reflexivity |].
    destruct (c2 =? ":")%char; [| reflexivity].
    destruct (parseValue fuel d (skipSpace r2)) as [[v1 r3] | |] eqn:Ev.
    + rewrite (IHv d (skipSpace r2) fuel') by (first [rewrite Ev; discriminate | lia]).
      rewrite Ev. destruct (skipSpace r3) as [| c4 r4]; [reflexivity |].
      destruct (c4 =? ",")%char; [| reflexivity].
      apply IHm; [exact H | lia].
    + rewrite (IHv d (skipSpace r2) fuel') by (first [rewrite Ev; discriminate | lia]).
      now rewrite Ev.
    + congruence.
  - intros d s acc fuel' H L. destruct fuel' as [| fuel']; [lia |].
    cbn [parseElems] in *. destruct (skipSpace s) as [| c r0]; [reflexivity |].
    destruct (c =? ",")%char; [| reflexivity].
    destruct (parseValue fuel d (skipSpace r0)) as [[v1 r1] | |] eqn:Ev.
    + rewrite (IHv d (skipSpace r0) fuel') by (first [rewrite Ev; discriminate | lia]).
      rewrite Ev. apply IHe; [exact H | lia].
    + rewrite (IHv d (skipSpace r0) fuel') by (first [rewrite Ev; discriminate | lia]).
      now rewrite Ev.
    + congruence.
Qed.

(** Any fuel above the length of the input gives the answer
    [parseJSON] works with. *)
Lemma parseValue_any_fuel (fuel : nat) (d : Z) (s : bytes) :
  (length s < fuel)%nat ->
  parseValue fuel d s = parseValue (S (length s)) d s.
Proof.
  intros L. destruct (parse_fuel_more (S (length s))) as (H & _).
  apply H; [apply parseValue_fuel | lia].
Qed.

Lemma skipSpace_idem (s : bytes) : skipSpace (skipSpace s) = skipSpace s.
Proof.
  destruct (skipSpace s) as [| c r] eqn:E; [reflexivity |].
  apply skipSpace_head. exact (skipSpace_nonspace s c r E).
Qed.

(** The second parse: the bytes of the value alone parse to the value
    found in the whole body. *)
Lemma parseJSON_valueSlice (body : bytes) (v : JValue) :
  parseJSON body = Some v -> parseJSON (valueSlice body) = Some v.
Proof.
  unfold parseJSON, valueSlice.
  destruct (parseValue (S (length (skipSpace body))) 0 (skipSpace body))
    as [[v0 rest] | |] eqn:E; try discriminate.
  destruct (skipSpace rest) eqn:Hr; [| discriminate].
  intros V. inversion V; subst v0.
  destruct (parse_stable (S (length (skipSpace body)))) as (Hv & _).
  destruct (Hv _ _ _ _ E) as (p & Ep & Hp).
  specialize (Hp [] eq_refl). rewrite app_nil_r in Hp.
  assert (Hs : firstn (length (skipSpace body) - length rest) (skipSpace body)
               = p).
  { rewrite Ep, length_app, Nat.add_sub, firstn_app, Nat.sub_diag, firstn_all.
    cbn [firstn]. apply app_nil_r. }
  rewrite Hs.
  assert (Sp : skipSpace p = p).
  { destruct p as [| c p']; [reflexivity |].
    apply skipSpace_head.
    destruct (skipSpace body) as [| c0 r0] eqn:Eb; [discriminate |].
    cbn [app] in Ep. inversion Ep; subst c0.
    exact (skipSpace_nonspace body c r0 Eb). }
  rewrite Sp.
  assert (L : (length p <= length (skipSpace body))%nat).
  { rewrite Ep, length_app. lia. }
  rewrite <- (parseValue_any_fuel (S (length (skipSpace body))) 0 p) by lia.
  rewrite Hp. reflexivity.
Qed.

(** What [json.Unmarshal] into a [Timestamp] comes to: the body must be
    JSON, and its value must store into a [TimestampJson]. *)
Lemma json_Unmarshal_Timestamp_spec (h : list Time) (body : bytes)
      (t : Timestamp) :
  json_Unmarshal_Timestamp h body t
  = match parseJSON body with
    | None => (h, t, Some SyntaxError)
    | Some v =>
        match decodeTimestampJson v (mkTimestampJson 0) with
        | (raw, None) =>
            (h ++ [time_Unix (TimestampJson_Timestamp raw) 0],
             mkTimestamp (Some (length h)), None)
        | (_, Some e) => (h, t, Some e)
        end
    end.
Proof.
  unfold json_Unmarshal_Timestamp.
  destruct (parseJSON body) as [v |] eqn:E; [| reflexivity].
  unfold UnmarshalJSON, json_Unmarshal_TimestampJson.
  rewrite (parseJSON_valueSlice body v E).
  destruct (decodeTimestampJson v (mkTimestampJson 0)) as [raw [e |]];
    reflexivity.
Qed.

Lemma decodeMembers_no_field (ms : list (bytes * JValue))
      (raw : TimestampJson) (saved : option error) :
  forallb (fun kv => negb (matchesField (bytesOf "timestamp") (fst kv))) ms
  = true ->
  decodeMembers ms raw saved = (raw, saved).
Proof.
  induction ms as [| [key v] ms IH]; cbn [forallb decodeMembers fst]; intros H.
  - reflexivity.
  - apply andb_prop in H. destruct H as [Hk Hms].
    apply negb_true_iff in Hk. rewrite Hk. now apply IH.
Qed.

(** A body is malformed exactly when it is not JSON or its value does
    not store into a [TimestampJson]. *)
Lemma malformed_spec (body : bytes) :
  malformed body = true <->
  (parseJSON body = None
   \/ exists v e, parseJSON body = Some v
                  /\ snd (decodeTimestampJson v (mkTimestampJson 0)) = Some e).
Proof.
  unfold malformed, decodeError. rewrite json_Unmarshal_Timestamp_spec.
  destruct (parseJSON body) as [v |]; [| cbn; tauto].
  destruct (decodeTimestampJson v (mkTimestampJson 0)) as [raw [e |]] eqn:D;
    cbn.
  - split; [| reflexivity]. intros _. right. exists v, e. now rewrite D.
  - split; [discriminate |].
    intros [K | (v' & e & K1 & K2)]; [discriminate |].
    inversion K1; subst. rewrite D in K2. discriminate.
Qed.

(** ** What decodes is an [int64] *)

Lemma parseDigits_nonneg (s : bytes) :
  forall acc n, 0 <= acc -> parseDigits s acc = Some n -> 0 <= n.
Proof.
  induction s as [| c s IH]; cbn [parseDigits]; intros acc n Ha E.
  - inversion E. lia.
  - destruct (isDigit c) eqn:Hc; [| discriminate].
    apply (IH (10 * acc + digitVal c)); [| exact E].
    unfold isDigit in Hc. apply andb_prop in Hc. destruct Hc as [H1 _].
    apply Z.leb_le in H1. unfold digitVal. lia.
Qed.

Lemma ParseInt_range (s : bytes) (n : Z) : ParseInt s = Some n -> inInt64 n.
Proof.
  unfold ParseInt, inInt64.
  destruct (match s with
            | [] => (false, s)
            | c :: r =>
                if (c =? "+")%char then (false, r)
                else if (c =? "-")%char then (true, r) else (false, s)
            end) as [neg body].
  destruct body as [| c r]; [discriminate |].
  destruct (parseDigits (c :: r) 0) as [un |] eqn:E; [| discriminate].
  pose proof (parseDigits_nonneg _ _ _ (Z.le_refl 0) E) as Hn.
  change (2 ^ 63) with 9223372036854775808.
  destruct neg.
  - destruct (Z.leb_spec un 9223372036854775808); [| discriminate].
    intros K. inversion K. lia.
  - destruct (Z.ltb_spec un 9223372036854775808); [| discriminate].
    intros K. inversion K. lia.
Qed.

Lemma decodeMembers_range (ms : list (bytes * JValue)) :
  forall raw saved raw' saved',
    inInt64 (TimestampJson_Timestamp raw) ->
    decodeMembers ms raw saved = (raw', saved') ->
    inInt64 (TimestampJson_Timestamp raw').
Proof.
  induction ms as [| [key v] ms IH]; cbn [decodeMembers];
    intros raw saved raw' saved' Hr E.
  - inversion E; subst. exact Hr.
  - destruct (matchesField (bytesOf "timestamp") key); [| eauto].
    destruct (storeInt64 v (TimestampJson_Timestamp raw) saved)
      as [n saved1] eqn:Es.
    apply (IH (mkTimestampJson n) saved1 raw' saved'); [| exact E].
    cbn [TimestampJson_Timestamp]. unfold storeInt64 in Es.
    destruct v; try (inversion Es; subst; exact Hr).
    destruct (ParseInt lit) as [m |] eqn:Ep; inversion Es; subst;
      [exact (ParseInt_range _ _ Ep) | exact Hr].
Qed.

(** Whatever [json.Unmarshal] leaves in a [TimestampJson] that started
    at zero is an [int64]. *)
Lemma json_Unmarshal_TimestampJson_range (b : bytes) (raw : TimestampJson)
      (err : option error) :
  json_Unmarshal_TimestampJson b (mkTimestampJson 0) = (raw, err) ->
  inInt64 (TimestampJson_Timestamp raw).
Proof.
  assert (Z0 : inInt64 0) by (unfold inInt64; split; [discriminate | reflexivity]).
  unfold json_Unmarshal_TimestampJson.
  destruct (parseJSON b) as [v |]; [| intros E; inversion E; exact Z0].
  destruct v; cbn [decodeTimestampJson]; intros E;
    try (inversion E; subst; exact Z0).
  exact (decodeMembers_range _ (mkTimestampJson 0) _ _ _ Z0 E).
Qed.

(** * The claims *)



(** C2.  Round trip.  For every signed 64-bit second count [x] (negative,
    zero or of large magnitude) and every state with the permit free:
    the write of [x] decodes the submitted text with [UnmarshalJSON] and
    stores the result with [setData]; the read that follows it takes the
    value with [getData] and encodes it again; the text it returns
    carries exactly [x], and the client that fetches it gets [x]. *)
Theorem write_then_read_roundtrip (x : Z) (s : State) :
  inInt64 x -> l s = [] ->
  exists s1,
    UnmarshalJSON (heap s) (mkTimestamp None) (setTimestampBody x)
    = (heap s1, data s1, None)
    /\ setData (data s1) (withHeap (heap s1) s) = Done s1
    /\ storeTimestamp (setTimestampBody x) s = Done (s1, okResponse)
    /\ getData s1 = Done (s1, data s1)
    /\ MarshalJSON (heap s1) (data s1)
       = Done (json_Marshal_TimestampJson (mkTimestampJson x), None)
    /\ returnTimestamp s1
       = Done (s1, mkHttpResponse StatusOK
                     (json_Marshal_TimestampJson (mkTimestampJson x)
                      ++ [newline]))
    /\ setTimestampCall x Delivered s
       = Done (s1, (Some (RespBody okResponse), None))
    /\ getTimestampCall Delivered s1 = Done (s1, (Some x, None)).
Proof.
  intros Hx Hl. exists (stored x s).
  pose proof (stored_deref x s) as D.
  pose proof (Time_Unix_time_Unix x Hx) as U.
  assert (Hl' : l (stored x s) = []) by exact Hl.
  repeat split.
  - rewrite setTimestampBody_object, <- (app_nil_r (timestampObject _ _ x)).
    rewrite UnmarshalJSON_timestampObject by (auto; reflexivity).
    reflexivity.
  - rewrite setData_free by exact Hl. reflexivity.
  - now apply storeTimestamp_setTimestampBody.
  - now apply getData_free.
  - unfold MarshalJSON. rewrite D. cbn [bind]. now rewrite U.
  - rewrite (returnTimestamp_free _ _ Hl' D). now rewrite U.
  - now apply setTimestampCall_free.
  - rewrite (getTimestampCall_free _ _ Hl' D). now rewrite U.
Qed.

Lemma write_then_read_roundtrip_witness :
  exists s1,
    setTimestampCall (- 9223372036854775808) Delivered initialState
    = Done (s1, (Some (RespBody okResponse), None))
    /\ getTimestampCall Delivered s1
       = Done (s1, (Some (- 9223372036854775808), None)).
Proof.
  destruct (write_then_read_roundtrip (- 9223372036854775808) initialState)
    as (s1 & _ & _ & _ & _ & _ & _ & Hset & Hget).
  - unfold inInt64. split; [intros K; discriminate K | reflexivity].
  - reflexivity.
  - exists s1. split; assumption.
Defined.

(** C3.  Rejection isolation.  For every state and every malformed
    submission, that is every body that is not JSON or whose value does
    not store into the wire type, [storeTimestamp] answers with the
    error response (status 500), the assignment inside [setData] is not
    executed, the state is left exactly as it was, and the read that
    follows answers as it would have before the submission. *)
Theorem malformed_submission_rejected (s : State) (body : bytes) :
  malformed body = true ->
  (parseJSON body = None
   \/ exists v e, parseJSON body = Some v
                  /\ snd (decodeTimestampJson v (mkTimestampJson 0)) = Some e)
  /\ exists s' resp,
      storeTimestamp body s = Done (s', resp)
      /\ resp = rejection
      /\ StatusCode resp = StatusInternalServerError
      /\ assignments s' = assignments s
      /\ data s' = data s
      /\ s' = s
      /\ returnTimestamp s' = returnTimestamp s.
Proof.
  intros M. split; [now apply malformed_spec |].
  exists s, rejection. unfold storeTimestamp.
  destruct (malformed_fails (heap s) (mkTimestamp None) body M) as (e & ->).
  rewrite withHeap_same. repeat split; reflexivity.
Qed.

Lemma malformed_submission_rejected_witness :
  exists s' resp,
    storeTimestamp (rawBody "1622366082fruit") initialState = Done (s', resp)
    /\ StatusCode resp = StatusInternalServerError
    /\ s' = initialState.
Proof.
  destruct (malformed_submission_rejected initialState
              (rawBody "1622366082fruit"))
    as (_ & s' & resp & E & _ & Hc & _ & _ & Hs & _).
  - vm_compute. reflexivity.
  - exists s', resp. repeat split; assumption.
Defined.

(** C4.  Initial state.  The cell starts out pointing to
    [time.Unix(1622366082, 0)]; and after any sequence of requests in
    which no assignment to [data] has completed, a read yields the text
    carrying 1622366082 and the client that fetches it gets
    1622366082. *)
Theorem initial_value_until_first_write (rs : list Request) (s : State) :
  serveAll rs initialState = Done s ->
  assignments s = 0%nat ->
  deref (heap initialState) (timestamp (data initialState))
  = Done (time_Unix 1622366082 0)
  /\ returnTimestamp s
     = Done (s, mkHttpResponse StatusOK
                  (json_Marshal_TimestampJson (mkTimestampJson 1622366082)
                   ++ [newline]))
  /\ getTimestampCall Delivered s = Done (s, (Some 1622366082, None)).
Proof.
  intros E A.
  destruct (serveAll_wellFormed rs initialState wellFormed_initial)
    as (s' & E' & (Hl & _ & H0) & _).
  rewrite E in E'. inversion E'; subst s'.
  destruct (H0 A) as (Hd & Hn).
  assert (D : deref (heap s) (timestamp (data s)) = Done now).
  { unfold deref. rewrite Hd. cbn [initialState data timestamp].
    now rewrite Hn. }
  split; [reflexivity |]. split.
  - rewrite (returnTimestamp_free s now Hl D). now rewrite Time_Unix_now.
  - rewrite (getTimestampCall_free s now Hl D). now rewrite Time_Unix_now.
Qed.

Lemma initial_value_until_first_write_witness :
  getTimestampCall Delivered initialState
  = Done (initialState, (Some 1622366082, None)).
Proof.
  apply (initial_value_until_first_write
           [mkRequest GET (bytesOf "text/plain") [];
            mkRequest POST (bytesOf "text/plain") (rawBody "apple")]
           initialState).
  - vm_compute. reflexivity.
  - reflexivity.
Defined.

(** C5.  Reading is pure observation.  In every state, a call of
    [getData] that returns hands back the current value of [data] and
    leaves the whole state, the stored value included, as it was; the
    call returns whenever the permit is free, and waits only when it
    is taken; and among concurrent callers no step of a [getData]
    goroutine changes the stored value. *)
Theorem getData_no_side_effect (s : State) :
  match getData s with
  | Done (s', result) => result = data s /\ data s' = data s /\ s' = s
  | Blocked => l s <> []
  | Panic => False
  end
  /\ (l s = [] -> getData s = Done (s, data s))
  /\ (forall g g' s',
         call g = CallGetData -> gstep g s = Done (g', s') ->
         data s' = data s /\ heap s' = heap s
         /\ assignments s' = assignments s).
Proof.
  split; [| split; [apply getData_free |]].
  - destruct (l s) as [| v q] eqn:Hl.
    + rewrite getData_free by exact Hl. auto.
    + rewrite getData_blocked by congruence. discriminate.
  - intros g g' s' C. unfold gstep, send, recv. rewrite C.
    destruct (pc g); try discriminate.
    + destruct (length (l s) <? chanCap)%nat; [| discriminate].
      intros E. inversion E; subst. auto.
    + intros E. inversion E; subst. auto.
    + destruct (l s); [discriminate |].
      intros E. inversion E; subst. auto.
Qed.

Lemma getData_no_side_effect_witness :
  getData initialState = Done (initialState, data initialState).
Proof.
  apply (proj1 (proj2 (getData_no_side_effect initialState))). reflexivity.
Defined.

(** C6.  What [main] prints.  When both calls go through, [main] first
    submits the current instant, then fetches it back, and appends to
    the standard output exactly one line, the fetched value, which is
    the submitted one; nothing else is printed, and [main] then waits
    for the server.  From the initial process the whole output is that
    one line. *)
Theorem main_prints_fetched_value (nowUnix : Z) (p : Process) :
  inInt64 nowUnix -> l (server p) = [] ->
  exists s1 s2 body,
    setTimestampCall nowUnix Delivered (server p) = Done (s1, (Some body, None))
    /\ getTimestampCall Delivered s1 = Done (s2, (Some nowUnix, None))
    /\ main nowUnix Delivered Delivered p
       = (mkProcess s2 (stdout p ++ Println nowUnix), WaitsForServer)
    /\ (p = initialProcess ->
        stdout (fst (main nowUnix Delivered Delivered p)) = Println nowUnix).
Proof.
  intros Hx Hl.
  pose (s1 := stored nowUnix (server p)).
  pose proof (setTimestampCall_free nowUnix (server p) Hl Hx) as Hset.
  pose proof (getTimestampCall_free s1 (time_Unix nowUnix 0) Hl
                (stored_deref nowUnix (server p))) as Hget.
  rewrite (Time_Unix_time_Unix nowUnix Hx) in Hget. fold s1 in Hset.
  exists s1, s1, (RespBody okResponse).
  assert (M : main nowUnix Delivered Delivered p
              = (mkProcess s1 (stdout p ++ Println nowUnix), WaitsForServer)).
  { unfold main. rewrite Hset, Hget. reflexivity. }
  repeat split; try assumption.
  intros ->. rewrite M. reflexivity.
Qed.

Lemma main_prints_fetched_value_witness :
  stdout (fst (main 1906357250 Delivered Delivered initialProcess))
  = bytesOf "1906357250" ++ [newline].
Proof.
  destruct (main_prints_fetched_value 1906357250 initialProcess)
    as (s1 & s2 & body & _ & _ & _ & H).
  - unfold inInt64. split; [intros K; discriminate K | reflexivity].
  - reflexivity.
  - exact (H eq_refl).
Defined.



(** C8.  The unchecked fetch.  [main] drops the error result of
    [getTimestampCall] and dereferences the pointer it returns.  The
    pointer is nil exactly when the call reports an error, and then
    [main] stops in a nil dereference with nothing printed; [main]
    gets past the print only when the fetch succeeded. *)
Theorem main_nil_dereference_on_failed_fetch
        (nowUnix : Z) (n1 n2 : Net) (p : Process)
        (s1 s2 : State) (r1 : option bytes * option error)
        (ts : option Z) (err : option error) :
  setTimestampCall nowUnix n1 (server p) = Done (s1, r1) ->
  getTimestampCall n2 s1 = Done (s2, (ts, err)) ->
  (err <> None -> ts = None)
  /\ (ts = None ->
      main nowUnix n1 n2 p = (mkProcess s2 (stdout p), NilDereference))
  /\ (snd (main nowUnix n1 n2 p) = NilDereference <-> err <> None)
  /\ (forall v, ts = Some v ->
                main nowUnix n1 n2 p
                = (mkProcess s2 (stdout p ++ Println v), WaitsForServer)).
Proof.
  intros Hset Hget.
  pose proof (getTimestampCall_nil_iff_error n2 s1 s2 ts err Hget) as Hiff.
  unfold main. rewrite Hset, Hget.
  split; [apply Hiff |]. split; [intros ->; reflexivity |]. split.
  - destruct ts as [v |]; cbn [snd].
    + split; [discriminate |]. intros K. apply Hiff in K. discriminate.
    + split; [intros _; now apply Hiff | reflexivity].
  - intros v ->. reflexivity.
Qed.

Lemma main_nil_dereference_on_failed_fetch_witness :
  main 1622366082 Delivered SendFails initialProcess
  = (mkProcess (stored 1622366082 initialState) [], NilDereference).
Proof.
  destruct (main_nil_dereference_on_failed_fetch
              1622366082 Delivered SendFails initialProcess
              (stored 1622366082 initialState)
              (stored 1622366082 initialState)
              (Some (RespBody okResponse), None)
              None (Some TransportError))
    as (_ & H & _).
  - vm_compute. reflexivity.
  - reflexivity.
  - exact (H eq_refl).
Defined.

(** C9.  An object without the field is accepted.  A submission that
    is a JSON object none of whose keys selects the field [timestamp],
    the body [{}] for one, is not rejected: [UnmarshalJSON] succeeds
    with the field at its zero value, [storeTimestamp] answers OK and
    overwrites the stored value with the instant 0 seconds after the
    epoch, which the next fetch returns. *)
Theorem object_without_field_stores_zero
        (s : State) (body : bytes) (v : JValue) :
  l s = [] -> parseJSON body = Some v -> lacksField v = true ->
  malformed body = false
  /\ json_Unmarshal_Timestamp (heap s) body (mkTimestamp None)
     = (heap s ++ [time_Unix 0 0], mkTimestamp (Some (length (heap s))), None)
  /\ storeTimestamp body s = Done (stored 0 s, okResponse)
  /\ StatusCode okResponse = StatusOK
  /\ assignments (stored 0 s) = S (assignments s)
  /\ deref (heap (stored 0 s)) (timestamp (data (stored 0 s)))
     = Done (time_Unix 0 0)
  /\ Time_Unix (time_Unix 0 0) = 0
  /\ getTimestampCall Delivered (stored 0 s) = Done (stored 0 s, (Some 0, None))
  /\ parseJSON (bytesOf "{}") = Some (JObject [])
  /\ lacksField (JObject []) = true.
Proof.
  intros Hl Hp Hv.
  assert (D : decodeTimestampJson v (mkTimestampJson 0)
              = (mkTimestampJson 0, None)).
  { destruct v; try discriminate. cbn [decodeTimestampJson lacksField] in *.
    now apply decodeMembers_no_field. }
  assert (U : json_Unmarshal_Timestamp (heap s) body (mkTimestamp None)
              = (heap s ++ [time_Unix 0 0],
                 mkTimestamp (Some (length (heap s))), None)).
  { rewrite json_Unmarshal_Timestamp_spec, Hp, D. reflexivity. }
  split.
  { unfold malformed, decodeError.
    rewrite json_Unmarshal_Timestamp_spec, Hp, D. reflexivity. }
  split; [exact U |]. split.
  { unfold storeTimestamp. rewrite U.
    rewrite setData_free by exact Hl. reflexivity. }
  split; [reflexivity |]. split; [reflexivity |].
  split; [apply stored_deref |]. split; [reflexivity |].
  split; [| split; reflexivity].
  rewrite (getTimestampCall_free (stored 0 s) (time_Unix 0 0) Hl
             (stored_deref 0 s)).
  reflexivity.
Qed.

Lemma object_without_field_stores_zero_witness :
  storeTimestamp (bytesOf "{}") initialState
  = Done (stored 0 initialState, okResponse)
  /\ getTimestampCall Delivered (stored 0 initialState)
     = Done (stored 0 initialState, (Some 0, None)).
Proof.
  destruct (object_without_field_stores_zero initialState (bytesOf "{}")
              (JObject []))
    as (_ & _ & H1 & _ & _ & _ & _ & H2 & _).
  - reflexivity.
  - reflexivity.
  - reflexivity.
  - split; assumption.
Defined.

(** C10.  The stored pointer is never nil.  At process start [data]
    holds a pointer to a cell of the heap; a successful [UnmarshalJSON]
    installs the address of a cell that did not exist before, and a
    failed one installs nothing; hence after any sequence of requests
    the server is in a state where [data] points to a cell, [getData]
    returns it and [MarshalJSON] encodes it without a nil
    dereference. *)
Theorem stored_pointer_never_nil (rs : list Request) :
  (exists t0, deref (heap initialState) (timestamp (data initialState))
              = Done t0)
  /\ (forall h t b,
         match UnmarshalJSON h t b with
         | (h', t', None) =>
             timestamp t' = Some (length h)
             /\ nth_error h (length h) = None
             /\ exists tmp, h' = h ++ [tmp] /\ deref h' (timestamp t') = Done tmp
         | (h', t', Some _) => h' = h /\ t' = t
         end)
  /\ exists s a tm b,
      serveAll rs initialState = Done s
      /\ timestamp (data s) = Some a
      /\ nth_error (heap s) a = Some tm
      /\ getData s = Done (s, data s)
      /\ MarshalJSON (heap s) (data s) = Done (b, None).
Proof.
  split; [exists now; reflexivity |]. split.
  - intros h t b. unfold UnmarshalJSON.
    destruct (json_Unmarshal_TimestampJson b (mkTimestampJson 0))
      as [raw [e |]]; [split; reflexivity |].
    split; [reflexivity |]. split.
    + apply nth_error_None. lia.
    + eexists. split; [reflexivity | apply deref_fresh].
  - destruct (serveAll_wellFormed rs initialState wellFormed_initial)
      as (s & E & (Hl & (a & tm & Ha & Ht) & _) & _).
    exists s, a, tm. eexists. split; [exact E |].
    split; [exact Ha |]. split; [exact Ht |].
    split; [now apply getData_free |].
    unfold MarshalJSON, deref. rewrite Ha, Ht. reflexivity.
Qed.

(** * Further properties *)

(** ** What a submission decodes to *)

Lemma decodeSeconds_range (body : bytes) (n : Z) :
  decodeSeconds body = Some n -> inInt64 n.
Proof.
  unfold decodeSeconds. destruct (parseJSON body) as [v |] eqn:P; [| discriminate].
  destruct (decodeTimestampJson v (mkTimestampJson 0)) as [raw [e |]] eqn:D;
    [discriminate |].
  intros E. inversion E; subst n.
  apply (json_Unmarshal_TimestampJson_range body raw None).
  unfold json_Unmarshal_TimestampJson. now rewrite P.
Qed.

Lemma json_Unmarshal_Timestamp_decodes (h : list Time) (t : Timestamp)
      (body : bytes) (n : Z) :
  decodeSeconds body = Some n ->
  json_Unmarshal_Timestamp h body t
  = (h ++ [time_Unix n 0], mkTimestamp (Some (length h)), None).
Proof.
  unfold decodeSeconds. rewrite json_Unmarshal_Timestamp_spec.
  destruct (parseJSON body) as [v |]; [| discriminate].
  destruct (decodeTimestampJson v (mkTimestampJson 0)) as [raw [e |]];
    [discriminate |].
  intros E. inversion E. reflexivity.
Qed.

Lemma json_Unmarshal_Timestamp_refuses (h : list Time) (t : Timestamp)
      (body : bytes) :
  decodeSeconds body = None ->
  exists e, json_Unmarshal_Timestamp h body t = (h, t, Some e).
Proof.
  unfold decodeSeconds. rewrite json_Unmarshal_Timestamp_spec.
  destruct (parseJSON body) as [v |]; [| eauto].
  destruct (decodeTimestampJson v (mkTimestampJson 0)) as [raw [e |]];
    [eauto | discriminate].
Qed.

Lemma malformed_decodeSeconds (body : bytes) :
  malformed body = negb (isSome (decodeSeconds body)).
Proof.
  unfold malformed, decodeError, decodeSeconds.
  rewrite json_Unmarshal_Timestamp_spec.
  destruct (parseJSON body) as [v |]; [| reflexivity].
  destruct (decodeTimestampJson v (mkTimestampJson 0)) as [raw [e |]];
    reflexivity.
Qed.

Lemma storeTimestamp_accepted (s : State) (body : bytes) (n : Z) :
  l s = [] -> decodeSeconds body = Some n ->
  storeTimestamp body s = Done (stored n s, okResponse).
Proof.
  intros Hl D. unfold storeTimestamp.
  rewrite (json_Unmarshal_Timestamp_decodes _ _ _ _ D).
  rewrite setData_free by exact Hl. reflexivity.
Qed.

Lemma storeTimestamp_refused (s : State) (body : bytes) :
  decodeSeconds body = None -> storeTimestamp body s = Done (s, rejection).
Proof.
  intros D. unfold storeTimestamp.
  destruct (json_Unmarshal_Timestamp_refuses (heap s) (mkTimestamp None) body D)
    as (e & ->).
  now rewrite withHeap_same.
Qed.

Lemma storedSeconds_stored (n : Z) (s : State) :
  inInt64 n -> storedSeconds (stored n s) = Some n.
Proof.
  intros H. unfold storedSeconds. rewrite stored_deref.
  now rewrite Time_Unix_time_Unix.
Qed.

Lemma wellFormed_stored (n : Z) (s : State) :
  l s = [] -> wellFormed (stored n s).
Proof.
  intros Hl. split; [exact Hl |]. split; [| cbn; discriminate].
  exists (length (heap s)), (time_Unix n 0). split; [reflexivity |].
  cbn. rewrite nth_error_app2, Nat.sub_diag by lia. reflexivity.
Qed.

Lemma storedSeconds_deref (s : State) (n : Z) :
  storedSeconds s = Some n ->
  exists tm, deref (heap s) (timestamp (data s)) = Done tm /\ Time_Unix tm = n.
Proof.
  unfold storedSeconds.
  destruct (deref (heap s) (timestamp (data s))) as [tm | |]; try discriminate.
  intros E. inversion E. eauto.
Qed.

Lemma setData_done (v : Timestamp) (s s' : State) :
  setData v s = Done s' -> l s = [] /\ s' = assign v s.
Proof.
  intros E. destruct (l s) as [| x q] eqn:Hl.
  - rewrite setData_free in E by exact Hl. inversion E. auto.
  - unfold setData, send in E. rewrite Hl in E. discriminate.
Qed.

Lemma getData_done (s s' : State) (t : Timestamp) :
  getData s = Done (s', t) -> l s = [] /\ s' = s /\ t = data s.
Proof.
  intros E. destruct (l s) as [| x q] eqn:Hl.
  - rewrite getData_free in E by exact Hl. inversion E. auto.
  - rewrite getData_blocked in E by congruence. discriminate.
Qed.

Lemma storeTimestamp_done (s s' : State) (body : bytes) (resp : HttpResponse) :
  storeTimestamp body s = Done (s', resp) ->
  (decodeSeconds body = None /\ s' = s /\ resp = rejection)
  \/ (exists n, decodeSeconds body = Some n /\ l s = []
               /\ s' = stored n s /\ resp = okResponse).
Proof.
  destruct (decodeSeconds body) as [n |] eqn:D.
  - unfold storeTimestamp.
    rewrite (json_Unmarshal_Timestamp_decodes _ _ _ _ D).
    destruct (setData (mkTimestamp (Some (length (heap s))))
                      (withHeap (heap s ++ [time_Unix n 0]) s))
      as [s1 | |] eqn:Es; cbn [bind]; try discriminate.
    apply setData_done in Es. destruct Es as [Hl ->].
    intros E. inversion E; subst. right. exists n. auto.
  - rewrite (storeTimestamp_refused s body D). intros E. inversion E. auto.
Qed.

Lemma returnTimestamp_done (s s' : State) (resp : HttpResponse) :
  returnTimestamp s = Done (s', resp) ->
  l s = [] /\ s' = s
  /\ exists tm, deref (heap s) (timestamp (data s)) = Done tm
                /\ resp = mkHttpResponse StatusOK
                            (json_Marshal_TimestampJson
                               (mkTimestampJson (Time_Unix tm)) ++ [newline]).
Proof.
  unfold returnTimestamp.
  destruct (getData s) as [[s1 t] | |] eqn:G; cbn [bind]; try discriminate.
  apply getData_done in G. destruct G as (Hl & -> & ->).
  unfold MarshalJSON.
  destruct (deref (heap s) (timestamp (data s))) as [tm | |]; cbn [bind];
    try discriminate.
  intros E. inversion E; subst. eauto.
Qed.

(** X1.  [storeTimestamp] is decided by the decoding of the body.  With
    the permit free: when the body decodes to the second count [n]
    (always an [int64]) the handler stores the instant [n] seconds
    after the epoch and answers OK; when it does not decode the handler
    answers with the rejection and leaves the state alone.  In every
    case the status is 200 exactly when [data] was assigned. *)
Theorem storeTimestamp_decided_by_decoding (s : State) (body : bytes) :
  l s = [] ->
  match decodeSeconds body with
  | Some n =>
      inInt64 n
      /\ storeTimestamp body s = Done (stored n s, okResponse)
      /\ storedSeconds (stored n s) = Some n
  | None => storeTimestamp body s = Done (s, rejection)
  end
  /\ forall s' resp,
      storeTimestamp body s = Done (s', resp) ->
      (StatusCode resp = StatusOK <-> assignments s' = S (assignments s)).
Proof.
  intros Hl. split.
  - destruct (decodeSeconds body) as [n |] eqn:D.
    + pose proof (decodeSeconds_range body n D) as R.
      split; [exact R |]. split; [now apply storeTimestamp_accepted |].
      now apply storedSeconds_stored.
    + now apply storeTimestamp_refused.
  - intros s' resp E.
    destruct (storeTimestamp_done _ _ _ _ E)
      as [(_ & -> & ->) | (n & _ & _ & -> & ->)].
    + split; [discriminate | intros K; lia].
    + split; reflexivity.
Qed.

Lemma storeTimestamp_decided_by_decoding_witness :
  storeTimestamp (rawBody "-50") initialState
  = Done (stored (- 50) initialState, okResponse)
  /\ storeTimestamp (rawBody "-50f") initialState
     = Done (initialState, rejection).
Proof.
  split.
  - destruct (storeTimestamp_decided_by_decoding initialState (rawBody "-50")
                eq_refl) as [H _].
    change (decodeSeconds (rawBody "-50")) with (Some (- 50)) in H.
    exact (proj1 (proj2 H)).
  - destruct (storeTimestamp_decided_by_decoding initialState (rawBody "-50f")
                eq_refl) as [H _].
    change (decodeSeconds (rawBody "-50f")) with (@None Z) in H.
    exact H.
Defined.

(** ** The server as a one-cell machine *)

Lemma handleRequests_done (r : Request) (s s' : State) (resp : HttpResponse) :
  handleRequests r s = Done (s', resp) ->
  (accepts r = None /\ s' = s)
  \/ (exists n, accepts r = Some n /\ reqMethod r = POST /\ l s = []
               /\ s' = stored n s /\ resp = okResponse).
Proof.
  unfold handleRequests, accepts.
  destruct (bytes_eqb (reqContentType r) (bytesOf "text/plain")).
  2:{ intros E. inversion E. auto. }
  destruct (reqMethod r).
  - intros E. apply returnTimestamp_done in E. destruct E as (_ & -> & _). auto.
  - intros E. apply storeTimestamp_done in E.
    destruct E as [(D & -> & _) | (n & D & Hl & -> & ->)].
    + left. auto.
    + right. exists n. auto.
  - intros E. inversion E. auto.
Qed.

Lemma accepts_range (r : Request) (n : Z) : accepts r = Some n -> inInt64 n.
Proof.
  unfold accepts.
  destruct (bytes_eqb (reqContentType r) (bytesOf "text/plain"));
    [| discriminate].
  destruct (reqMethod r); try discriminate. apply decodeSeconds_range.
Qed.

Lemma handleRequests_observed (r : Request) (s : State) (cur : Z) :
  wellFormed s -> storedSeconds s = Some cur ->
  exists s' resp,
    handleRequests r s = Done (s', resp)
    /\ wellFormed s'
    /\ storedSeconds s' = Some (match accepts r with
                                | Some n => n
                                | None => cur
                                end).
Proof.
  intros W C.
  destruct (handleRequests_wellFormed r s W) as (s' & resp & E & W' & _).
  exists s', resp. split; [exact E |]. split; [exact W' |].
  destruct (handleRequests_done _ _ _ _ E)
    as [(A & ->) | (n & A & _ & _ & -> & _)]; rewrite A; [exact C |].
  apply storedSeconds_stored. exact (accepts_range r n A).
Qed.

Lemma serveAll_observed (rs : list Request) :
  forall s cur,
    wellFormed s -> storedSeconds s = Some cur ->
    exists s', serveAll rs s = Done s' /\ wellFormed s'
               /\ storedSeconds s' = Some (observed rs cur).
Proof.
  induction rs as [| r rs IH]; intros s cur W C; cbn [serveAll observed].
  - exists s. auto.
  - destruct (handleRequests_observed r s cur W C) as (s1 & resp & -> & W1 & C1).
    cbn [bind]. apply IH; assumption.
Qed.

Lemma storedSeconds_initial :
  storedSeconds initialState = Some initialUnixTimestamp.
Proof. reflexivity. Qed.

Lemma getTimestampCall_storedSeconds (s : State) (n : Z) :
  l s = [] -> storedSeconds s = Some n ->
  getTimestampCall Delivered s = Done (s, (Some n, None)).
Proof.
  intros Hl C. destruct (storedSeconds_deref s n C) as (tm & D & <-).
  now apply getTimestampCall_free.
Qed.

(** X2.  The server implements a one-cell machine.  After any sequence
    of requests served from the initial state, the stored value and the
    value a fetch returns are those of the abstract machine [observed]:
    the second count of the last accepted submission, or 1622366082 when
    none was accepted. *)
Theorem server_implements_one_cell (rs : list Request) :
  exists s,
    serveAll rs initialState = Done s
    /\ storedSeconds s = Some (observed rs initialUnixTimestamp)
    /\ getTimestampCall Delivered s
       = Done (s, (Some (observed rs initialUnixTimestamp), None)).
Proof.
  destruct (serveAll_observed rs initialState initialUnixTimestamp
              wellFormed_initial storedSeconds_initial)
    as (s & E & (Hl & _) & C).
  exists s. split; [exact E |]. split; [exact C |].
  now apply getTimestampCall_storedSeconds.
Qed.

(** X3.  Only an accepted submission changes the server.  Whatever the
    state, a request that the server answers and that changes the state
    is a POST with the plain-text content type whose body decodes to
    some [n], and the new state is the old one with [n] stored; every
    other answered request (a fetch, a rejected submission, a request
    the router turns away) leaves the state exactly as it was. *)
Theorem only_accepted_submission_changes_state
        (r : Request) (s s' : State) (resp : HttpResponse) :
  handleRequests r s = Done (s', resp) ->
  (accepts r = None -> s' = s)
  /\ (s' <> s ->
      exists n, accepts r = Some n /\ reqMethod r = POST
                /\ bytes_eqb (reqContentType r) (bytesOf "text/plain") = true
                /\ decodeSeconds (reqBody r) = Some n
                /\ s' = stored n s /\ resp = okResponse).
Proof.
  intros E.
  destruct (handleRequests_done _ _ _ _ E)
    as [(A & ->) | (n & A & M & _ & -> & ->)].
  - split; [reflexivity | congruence].
  - split; [congruence |]. intros _. exists n.
    pose proof A as A'. unfold accepts in A'.
    destruct (bytes_eqb (reqContentType r) (bytesOf "text/plain")) eqn:C;
      [| discriminate].
    rewrite M in A'. auto 7.
Qed.

Lemma only_accepted_submission_changes_state_witness :
  exists n, accepts (mkRequest POST (bytesOf "text/plain") (rawBody "75"))
            = Some n
            /\ stored 75 initialState = stored n initialState.
Proof.
  destruct (only_accepted_submission_changes_state
              (mkRequest POST (bytesOf "text/plain") (rawBody "75"))
              initialState (stored 75 initialState) okResponse)
    as (_ & H).
  - vm_compute. reflexivity.
  - destruct H as (n & A & _ & _ & _ & E & _).
    + intros K. apply (f_equal assignments) in K. discriminate K.
    + exists n. split; assumption.
Defined.

(** ** The fetch side *)

Lemma returnTimestamp_blocked (s : State) : l s <> [] -> returnTimestamp s = Blocked.
Proof. intros H. unfold returnTimestamp. now rewrite getData_blocked. Qed.

Lemma returnTimestamp_panics (s : State) :
  l s = [] -> storedSeconds s = None -> returnTimestamp s = Panic.
Proof.
  intros Hl C. unfold returnTimestamp. rewrite getData_free by exact Hl.
  cbn [bind]. unfold MarshalJSON, storedSeconds, deref in *.
  destruct (timestamp (data s)) as [a |]; [| reflexivity].
  destruct (nth_error (heap s) a); [discriminate | reflexivity].
Qed.

Lemma storedSeconds_range (s : State) (n : Z) :
  storedSeconds s = Some n -> inInt64 n.
Proof.
  intros C. destruct (storedSeconds_deref s n C) as (tm & _ & <-).
  unfold Time_Unix. apply int64_range.
Qed.

Lemma fetched_body_decodes (n : Z) :
  inInt64 n ->
  json_Unmarshal_TimestampJson
    (json_Marshal_TimestampJson (mkTimestampJson n) ++ [newline])
    (mkTimestampJson 0)
  = (mkTimestampJson n, None).
Proof.
  intros H. rewrite json_Marshal_object.
  apply json_Unmarshal_timestampObject; auto.
Qed.

(** [returnTimestamp] as a function of the permit and of the stored
    instant. *)
Lemma returnTimestamp_by_state (s : State) :
  returnTimestamp s
  = match l s with
    | [] =>
        match storedSeconds s with
        | Some n =>
            Done (s, mkHttpResponse
                       StatusOK
                       (json_Marshal_TimestampJson (mkTimestampJson n)
                        ++ [newline]))
        | None => Panic
        end
    | _ :: _ => Blocked
    end.
Proof.
  destruct (l s) as [| x q] eqn:Hl.
  - destruct (storedSeconds s) as [n |] eqn:C.
    + destruct (storedSeconds_deref s n C) as (tm & D & Hn).
      now rewrite (returnTimestamp_free s tm Hl D), Hn.
    + exact (returnTimestamp_panics s Hl C).
  - apply returnTimestamp_blocked. congruence.
Qed.

(** X4.  [returnTimestamp] only reads.  When it answers, the state is
    exactly as before, the status is 200 and the body is the encoding
    of the stored Unix seconds, an [int64] that the body decodes back
    to.  It waits only when the permit is taken, and it panics only
    when [data] does not point to an instant. *)
Theorem returnTimestamp_only_reads (s : State) :
  match returnTimestamp s with
  | Done (s', resp) =>
      s' = s /\ StatusCode resp = StatusOK
      /\ exists n,
          storedSeconds s = Some n /\ inInt64 n
          /\ RespBody resp
             = json_Marshal_TimestampJson (mkTimestampJson n) ++ [newline]
          /\ json_Unmarshal_TimestampJson (RespBody resp) (mkTimestampJson 0)
             = (mkTimestampJson n, None)
  | Blocked => l s <> []
  | Panic => l s = [] /\ storedSeconds s = None
  end.
Proof.
  rewrite returnTimestamp_by_state.
  destruct (l s) as [| x q] eqn:Hl; [| discriminate].
  destruct (storedSeconds s) as [n |] eqn:C; [| auto].
  pose proof (storedSeconds_range s n C) as R.
  split; [reflexivity |]. split; [reflexivity |].
  exists n. split; [reflexivity |]. split; [exact R |].
  split; [reflexivity |]. now apply fetched_body_decodes.
Qed.

Lemma getTimestampCall_unfold (n : Net) (s : State) :
  getTimestampCall n s
  = match n with
    | SendFails => Done (s, (None, Some TransportError))
    | _ =>
        match returnTimestamp s with
        | Done (s', resp) =>
            match n with
            | ReadFails => Done (s', (None, Some TransportError))
            | _ =>
                let '(ts, err) :=
                  json_Unmarshal_TimestampJson (RespBody resp)
                                               (mkTimestampJson 0) in
                match err with
                | Some e => Done (s', (None, Some e))
                | None => Done (s', (Some (TimestampJson_Timestamp ts), None))
                end
            end
        | Blocked => Blocked
        | Panic => Done (s, (None, Some TransportError))
        end
    end.
Proof.
  unfold getTimestampCall, roundTrip, handleRequests.
  cbn [reqContentType reqMethod].
  change (bytes_eqb (bytesOf "text/plain") (bytesOf "text/plain")) with true.
  cbv iota.
  destruct n; [| reflexivity |];
    destruct (returnTimestamp s) as [[s' resp] | |]; reflexivity.
Qed.

(** X5.  [getTimestampCall] reports the stored value and changes
    nothing.  Whenever the call returns, the server state is the one it
    found.  A non-nil result comes only from a delivered call, comes
    without an error, and is the Unix seconds of the stored instant;
    and a delivered call to a server whose [data] points to an instant
    does return a non-nil result. *)
Theorem getTimestampCall_reports_stored_value
        (n : Net) (s s' : State) (ts : option Z) (err : option error) :
  getTimestampCall n s = Done (s', (ts, err)) ->
  s' = s
  /\ (forall v, ts = Some v ->
                n = Delivered /\ err = None /\ storedSeconds s = Some v)
  /\ (n = Delivered -> storedSeconds s <> None -> ts <> None).
Proof.
  rewrite getTimestampCall_unfold, returnTimestamp_by_state.
  destruct n; [| intros E; inversion E; subst; split;
                   [reflexivity | split; discriminate] |];
    (destruct (l s) as [| x q]; [| discriminate]);
    destruct (storedSeconds s) as [m |] eqn:C.
  - cbn [RespBody].
    rewrite (fetched_body_decodes m (storedSeconds_range s m C)).
    intros E. inversion E; subst. split; [reflexivity |]. split.
    + intros v K. inversion K; subst. auto.
    + intros _ _. discriminate.
  - intros E. inversion E; subst. split; [reflexivity |].
    split; [discriminate | congruence].
  - intros E. inversion E; subst. split; [reflexivity |].
    split; discriminate.
  - intros E. inversion E; subst. split; [reflexivity |].
    split; discriminate.
Qed.

Lemma getTimestampCall_reports_stored_value_witness :
  storedSeconds (stored 25 initialState) = Some 25.
Proof.
  destruct (getTimestampCall_reports_stored_value
              Delivered (stored 25 initialState) (stored 25 initialState)
              (Some 25) None) as (_ & H & _).
  - vm_compute. reflexivity.
  - exact (proj2 (proj2 (H 25 eq_refl))).
Defined.

(** ** The submit side *)

Lemma setTimestampCall_wellFormed (x : Z) (n : Net) (s : State) :
  wellFormed s ->
  exists s1 r, setTimestampCall x n s = Done (s1, r) /\ wellFormed s1.
Proof.
  intros W. unfold setTimestampCall, roundTrip. destruct n.
  - destruct (handleRequests_wellFormed
                (mkRequest POST (bytesOf "text/plain") (setTimestampBody x))
                s W) as (s1 & resp & -> & W1 & _).
    cbn [bind]. destruct (negb (StatusCode resp =? StatusOK)); eauto.
  - cbn [bind]. eauto.
  - destruct (handleRequests_wellFormed
                (mkRequest POST (bytesOf "text/plain") (setTimestampBody x))
                s W) as (s1 & resp & -> & W1 & _).
    cbn [bind]. eauto.
Qed.

Lemma handleRequests_post (body : bytes) (s : State) :
  handleRequests (mkRequest POST (bytesOf "text/plain") body) s
  = storeTimestamp body s.
Proof. reflexivity. Qed.

(** X6.  What [setTimestampCall] returns, by what the network does.
    For an [int64] and a free permit: a delivered call stores the value
    and returns the answer without error; a call that cannot be sent
    stores nothing and returns nil with an error; a call whose answer
    cannot be read returns nil with an error although the value was
    stored. *)
Theorem setTimestampCall_by_network (x : Z) (n : Net) (s : State) :
  inInt64 x -> l s = [] ->
  setTimestampCall x n s
  = match n with
    | Delivered => Done (stored x s, (Some (RespBody okResponse), None))
    | SendFails => Done (s, (None, Some TransportError))
    | ReadFails => Done (stored x s, (None, Some TransportError))
    end.
Proof.
  intros Hx Hl. destruct n.
  - now apply setTimestampCall_free.
  - reflexivity.
  - unfold setTimestampCall, roundTrip.
    rewrite handleRequests_post, storeTimestamp_setTimestampBody by assumption.
    reflexivity.
Qed.

Lemma setTimestampCall_by_network_witness :
  setTimestampCall 0 ReadFails initialState
  = Done (stored 0 initialState, (None, Some TransportError)).
Proof.
  apply (setTimestampCall_by_network 0 ReadFails initialState).
  - unfold inInt64. split; [intros K; discriminate K | reflexivity].
  - reflexivity.
Defined.

(** X7.  A refused submission comes back as an error with the answer's
    text.  For every text that makes a malformed body, and whatever the
    state, [setTimestampCallStr] returns the body of the rejection
    together with the unexpected-status error, and the server state is
    unchanged. *)
Theorem setTimestampCallStr_reports_rejection (raw : string) (s : State) :
  malformed (rawBody raw) = true ->
  setTimestampCallStr raw Delivered s
  = Done (s, (Some (RespBody rejection), Some UnexpectedStatus)).
Proof.
  intros M. rewrite malformed_decodeSeconds in M.
  destruct (decodeSeconds (rawBody raw)) as [n |] eqn:D; [discriminate |].
  unfold setTimestampCallStr, roundTrip.
  rewrite handleRequests_post, (storeTimestamp_refused s _ D). reflexivity.
Qed.

Lemma setTimestampCallStr_reports_rejection_witness :
  setTimestampCallStr "0E0" Delivered initialState
  = Done (initialState, (Some (RespBody rejection), Some UnexpectedStatus)).
Proof.
  apply (setTimestampCallStr_reports_rejection "0E0" initialState).
  vm_compute. reflexivity.
Defined.

(** ** [main] under any network *)

Lemma getTimestampCall_wellFormed (n : Net) (s : State) :
  wellFormed s ->
  exists ts err,
    getTimestampCall n s = Done (s, (ts, err))
    /\ (ts = None <-> n <> Delivered)
    /\ (forall v, ts = Some v -> storedSeconds s = Some v).
Proof.
  intros W. pose proof W as (Hl & _).
  destruct (wellFormed_deref s W) as (tm & D).
  rewrite getTimestampCall_unfold, (returnTimestamp_free s tm Hl D).
  destruct n.
  - cbn [RespBody]. rewrite fetched_body_decodes
      by (unfold Time_Unix; apply int64_range).
    eexists _, _. split; [reflexivity |]. split.
    + split; [discriminate | congruence].
    + intros v K. inversion K; subst. unfold storedSeconds. now rewrite D.
  - eexists _, _. split; [reflexivity |]. split.
    + split; [discriminate | reflexivity].
    + discriminate.
  - eexists _, _. split; [reflexivity |]. split.
    + split; [discriminate | reflexivity].
    + discriminate.
Qed.

(** X8.  How [main] ends is decided by the fetch alone.  From a server
    in a state reached by serving requests, and whatever happens to the
    submission: [main] never hangs in a call; it stops in a nil
    dereference, with nothing printed, exactly when the fetch is not
    delivered; otherwise it appends one line, the decimal text of an
    [int64], and waits for the server. *)
Theorem main_end_decided_by_fetch (nowUnix : Z) (n1 n2 : Net) (p : Process) :
  wellFormed (server p) ->
  snd (main nowUnix n1 n2 p) <> CallHangs
  /\ (snd (main nowUnix n1 n2 p) = NilDereference <-> n2 <> Delivered)
  /\ (n2 <> Delivered -> stdout (fst (main nowUnix n1 n2 p)) = stdout p)
  /\ (n2 = Delivered ->
      snd (main nowUnix n1 n2 p) = WaitsForServer
      /\ exists v, inInt64 v
                   /\ stdout (fst (main nowUnix n1 n2 p))
                      = stdout p ++ Println v).
Proof.
  intros W.
  destruct (setTimestampCall_wellFormed nowUnix n1 (server p) W)
    as (s1 & r1 & E1 & W1).
  destruct (getTimestampCall_wellFormed n2 s1 W1) as (ts & err & E2 & Hn & Hv).
  unfold main. rewrite E1, E2.
  destruct ts as [v |]; cbn [fst snd stdout].
  - assert (N : n2 = Delivered).
    { destruct n2; try reflexivity; exfalso;
        (assert (K : Some v = None) by (apply Hn; discriminate));
        discriminate. }
    split; [discriminate |]. split; [split; [discriminate | congruence] |].
    split; [congruence |]. intros _. split; [reflexivity |].
    exists v. split; [| reflexivity].
    exact (storedSeconds_range s1 v (Hv v eq_refl)).
  - assert (N : n2 <> Delivered) by (apply Hn; reflexivity).
    split; [discriminate |]. split; [split; auto |].
    split; [reflexivity | congruence].
Qed.

Lemma main_end_decided_by_fetch_witness :
  snd (main 5 SendFails ReadFails initialProcess) = NilDereference.
Proof.
  destruct (main_end_decided_by_fetch 5 SendFails ReadFails initialProcess
              wellFormed_initial) as (_ & H & _).
  apply H. discriminate.
Defined.

(** X9.  A failed submission goes unnoticed.  [main] drops the error of
    [setTimestampCall]: when the submission cannot be sent and the fetch
    is delivered, [main] prints the value the server held before, not
    the current instant; when the submission is stored and only its
    answer is lost, [main] prints the current instant. *)
Theorem main_prints_old_value_when_submission_fails
        (nowUnix cur : Z) (p : Process) :
  inInt64 nowUnix -> l (server p) = [] -> storedSeconds (server p) = Some cur ->
  main nowUnix SendFails Delivered p
  = (mkProcess (server p) (stdout p ++ Println cur), WaitsForServer)
  /\ main nowUnix ReadFails Delivered p
     = (mkProcess (stored nowUnix (server p)) (stdout p ++ Println nowUnix),
        WaitsForServer).
Proof.
  intros Hx Hl C. split.
  - unfold main.
    change (setTimestampCall nowUnix SendFails (server p))
      with (Done (server p, (@None bytes, Some TransportError))).
    cbv iota beta.
    rewrite (getTimestampCall_storedSeconds (server p) cur Hl C). reflexivity.
  - unfold main. unfold setTimestampCall at 1. unfold roundTrip.
    rewrite handleRequests_post, storeTimestamp_setTimestampBody by assumption.
    cbn [bind]. cbv iota beta.
    rewrite (getTimestampCall_storedSeconds (stored nowUnix (server p)) nowUnix
               Hl (storedSeconds_stored nowUnix (server p) Hx)).
    reflexivity.
Qed.

Lemma main_prints_old_value_when_submission_fails_witness :
  stdout (fst (main 1906357250 SendFails Delivered initialProcess))
  = Println 1622366082.
Proof.
  destruct (main_prints_old_value_when_submission_fails
              1906357250 1622366082 initialProcess) as (H & _).
  - unfold inInt64. split; [intros K; discriminate K | reflexivity].
  - reflexivity.
  - reflexivity.
  - rewrite H. reflexivity.
Defined.

(** ** Integer literals at the bounds of [int64] *)

Lemma ParseInt_decimal (neg : bool) (u : Z) (ds : bytes) :
  decimalOf u ds ->
  ParseInt ((if neg then ["-"%char] else []) ++ ds)
  = if neg then (if u <=? 2 ^ 63 then Some (- u) else None)
    else (if u <? 2 ^ 63 then Some u else None).
Proof.
  intros (Hne & Hall & Hval & _). unfold ParseInt.
  destruct ds as [| c tl]; [congruence |].
  specialize (Hval 0). rewrite Z.mul_0_l, Z.add_0_l in Hval.
  destruct neg; cbn [app].
  - change (("-" =? "+")%char) with false.
    change (("-" =? "-")%char) with true. cbv iota. now rewrite Hval.
  - cbn in Hall. apply andb_prop in Hall. destruct Hall as [Hc _].
    destruct (isDigit_not_sign c Hc) as [-> ->]. now rewrite Hval.
Qed.

Lemma decimal_literal_head (neg : bool) (u : Z) (ds : bytes) :
  decimalOf u ds ->
  exists c tl, (if neg then ["-"%char] else []) ++ ds = c :: tl
               /\ startsNumber c = true.
Proof.
  intros (Hne & Hall & _). destruct neg; cbn [app].
  - eexists _, _. split; reflexivity.
  - destruct ds as [| c tl]; [congruence |]. exists c, tl.
    split; [reflexivity |]. cbn in Hall. apply andb_prop in Hall.
    destruct Hall as [Hc _]. unfold startsNumber. now rewrite Hc.
Qed.

Lemma parseJSON_literalBody (neg : bool) (u : Z) (ds : bytes) :
  decimalOf u ds ->
  parseJSON (literalBody ((if neg then ["-"%char] else []) ++ ds))
  = Some (JObject [(bytesOf "timestamp",
                    JNumber ((if neg then ["-"%char] else []) ++ ds))]).
Proof.
  intros Hd. pose proof (scanNumber_decimal neg u ds [] Hd) as Hs.
  destruct (decimal_literal_head neg u ds Hd) as (c & tl & E & Hc).
  rewrite app_assoc in Hs.
  set (lit := (if neg then ["-"%char] else []) ++ ds) in *.
  rewrite E in Hs. cbn [app] in Hs.
  unfold parseJSON.
  change (skipSpace (literalBody lit)) with (literalBody lit).
  assert (L : exists n, length (literalBody lit) = S (S n)).
  { unfold literalBody. cbn [app length]. eauto. }
  destruct L as (n & ->).
  unfold literalBody. rewrite (parseValue_timestamp_member (S n)).
  change (skipSpace (bytesOf " : " ++ lit ++ ["}"%char]))
    with (":"%char :: " "%char :: lit ++ ["}"%char]).
  cbv iota. rewrite Ascii.eqb_refl.
  change (skipSpace (" "%char :: lit ++ ["}"%char]))
    with (skipSpace (lit ++ ["}"%char])).
  rewrite E. cbn [app].
  rewrite (skipSpace_head c _ (startsNumber_isSpace c Hc)).
  rewrite (startsNumber_parseValue n 1 c _ Hc), Hs. reflexivity.
Qed.

Lemma decodeSeconds_literalBody (neg : bool) (u : Z) (ds : bytes) :
  decimalOf u ds ->
  decodeSeconds (literalBody ((if neg then ["-"%char] else []) ++ ds))
  = ParseInt ((if neg then ["-"%char] else []) ++ ds).
Proof.
  intros Hd. unfold decodeSeconds. rewrite (parseJSON_literalBody neg u ds Hd).
  cbn [decodeTimestampJson decodeMembers]. rewrite matchesField_timestamp.
  cbn [storeInt64].
  destruct (ParseInt ((if neg then ["-"%char] else []) ++ ds)); reflexivity.
Qed.

(** X10.  An integer literal is accepted exactly when it fits in an
    [int64].  For every decimal numeral [ds] of a natural number [u],
    with or without a minus sign, the submission carrying it is stored
    as [u] or [- u] when that is at most [2^63 - 1] and at least
    [- 2^63]; a numeral beyond these bounds is rejected, not wrapped
    around, and the state is left alone. *)
Theorem integer_literal_accepted_iff_in_range
        (neg : bool) (u : Z) (ds : bytes) (s : State) :
  decimalOf u ds -> l s = [] ->
  storeTimestamp (literalBody ((if neg then ["-"%char] else []) ++ ds)) s
  = if (if neg then u <=? 2 ^ 63 else u <? 2 ^ 63)
    then Done (stored (if neg then - u else u) s, okResponse)
    else Done (s, rejection).
Proof.
  intros Hd Hl.
  pose proof (decodeSeconds_literalBody neg u ds Hd) as D.
  rewrite (ParseInt_decimal neg u ds Hd) in D.
  destruct neg.
  - destruct (u <=? 2 ^ 63).
    + now apply storeTimestamp_accepted.
    + now apply storeTimestamp_refused.
  - destruct (u <? 2 ^ 63).
    + now apply storeTimestamp_accepted.
    + now apply storeTimestamp_refused.
Qed.

Lemma integer_literal_accepted_iff_in_range_witness :
  storeTimestamp (literalBody (bytesOf "9223372036854775808")) initialState
  = Done (initialState, rejection)
  /\ storeTimestamp (literalBody (bytesOf "-9223372036854775808")) initialState
     = Done (stored (- 9223372036854775808) initialState, okResponse).
Proof.
  assert (Hd : decimalOf 9223372036854775808
                         (bytesOf "9223372036854775808")).
  { assert (R : 0 <= 9223372036854775808 < 10 ^ Z.of_nat 20).
    { split; [intros K; discriminate K | reflexivity]. }
    destruct (formatBits_decimal
                20 9223372036854775808 [] (Nat.lt_0_succ 19) R)
      as (ds & E & Hd).
    rewrite app_nil_r in E. subst ds. exact Hd. }
  split.
  - exact (integer_literal_accepted_iff_in_range
             false 9223372036854775808 (bytesOf "9223372036854775808")
             initialState Hd eq_refl).
  - exact (integer_literal_accepted_iff_in_range
             true 9223372036854775808 (bytesOf "9223372036854775808")
             initialState Hd eq_refl).
Defined.

(** ** Values that are not objects *)

(** X11.  The kind of the top-level JSON value decides.  A submission
    that is valid JSON but whose value is an array, a string, a number
    or a boolean is rejected, whatever the state, and changes nothing;
    the JSON [null] is accepted and stores the instant 0 seconds after
    the epoch. *)
Theorem top_level_value_kind_decides (s : State) (body : bytes) (v : JValue) :
  parseJSON body = Some v ->
  (notObjectNorNull v = true -> storeTimestamp body s = Done (s, rejection))
  /\ (v = JNull -> l s = [] ->
      storeTimestamp body s = Done (stored 0 s, okResponse)).
Proof.
  intros P. split.
  - intros K. apply storeTimestamp_refused. unfold decodeSeconds. rewrite P.
    destruct v; try discriminate; reflexivity.
  - intros -> Hl. apply storeTimestamp_accepted; [exact Hl |].
    unfold decodeSeconds. rewrite P. reflexivity.
Qed.

Lemma top_level_value_kind_decides_witness :
  storeTimestamp (bytesOf "[1622366082]") initialState
  = Done (initialState, rejection)
  /\ storeTimestamp (bytesOf " null ") initialState
     = Done (stored 0 initialState, okResponse).
Proof.
  split.
  - apply (proj1 (top_level_value_kind_decides
                    initialState (bytesOf "[1622366082]")
                    (JArray [JNumber (bytesOf "1622366082")]) eq_refl)).
    reflexivity.
  - apply (proj2 (top_level_value_kind_decides
                    initialState (bytesOf " null ") JNull eq_refl));
      reflexivity.
Defined.

(** ** Instants are never overwritten *)

Lemma handleRequests_heap (r : Request) (s s' : State) (resp : HttpResponse) :
  handleRequests r s = Done (s', resp) ->
  exists ext, heap s' = heap s ++ ext.
Proof.
  intros E.
  destruct (handleRequests_done _ _ _ _ E)
    as [(_ & ->) | (n & _ & _ & _ & -> & _)].
  - exists []. now rewrite app_nil_r.
  - eexists. reflexivity.
Qed.

Lemma serveAll_heap (rs : list Request) :
  forall s s', serveAll rs s = Done s' -> exists ext, heap s' = heap s ++ ext.
Proof.
  induction rs as [| r rs IH]; intros s s'; cbn [serveAll].
  - intros E. inversion E. exists []. now rewrite app_nil_r.
  - destruct (handleRequests r s) as [[s1 resp] | |] eqn:E1; cbn [bind];
      try discriminate.
    intros E. destruct (handleRequests_heap _ _ _ _ E1) as (e1 & H1).
    destruct (IH _ _ E) as (e2 & H2).
    exists (e1 ++ e2). rewrite H2, H1. now rewrite app_assoc.
Qed.

Lemma deref_app (h ext : list Time) (p : ptr) (tm : Time) :
  deref h p = Done tm -> deref (h ++ ext) p = Done tm.
Proof.
  unfold deref. destruct p as [a |]; [| discriminate].
  destruct (nth_error h a) as [t |] eqn:E; [| discriminate].
  intros K. rewrite nth_error_app1, E; [exact K |].
  apply nth_error_Some. congruence.
Qed.

(** X12.  A value taken from the cell stays what it was.  The copy
    [getData] hands out shares its pointer with the cell, but the
    instants of the heap are never overwritten: whatever requests are
    served afterwards, the old heap is a prefix of the new one, the
    copy still points to the same instant, and [MarshalJSON] encodes it
    to the same text.  So [returnTimestamp] may encode after it has
    given the permit back. *)
Theorem value_taken_stays_valid
        (rs : list Request) (s s' : State) (t : Timestamp) (tm : Time) :
  serveAll rs s = Done s' ->
  deref (heap s) (timestamp t) = Done tm ->
  firstn (length (heap s)) (heap s') = heap s
  /\ deref (heap s') (timestamp t) = Done tm
  /\ MarshalJSON (heap s') t = MarshalJSON (heap s) t.
Proof.
  intros E D. destruct (serveAll_heap rs s s' E) as (ext & H).
  pose proof (deref_app (heap s) ext (timestamp t) tm D) as D'.
  rewrite H. split.
  - rewrite firstn_app, Nat.sub_diag, firstn_all. cbn [firstn].
    apply app_nil_r.
  - split; [exact D' |]. unfold MarshalJSON. now rewrite D, D'.
Qed.

Lemma value_taken_stays_valid_witness :
  deref (heap (stored 75 (stored 25 initialState)))
        (timestamp (data (stored 25 initialState)))
  = Done (time_Unix 25 0).
Proof.
  apply (value_taken_stays_valid
           [mkRequest POST (bytesOf "text/plain") (rawBody "75")]
           (stored 25 initialState) (stored 75 (stored 25 initialState))
           (data (stored 25 initialState)) (time_Unix 25 0)).
  - vm_compute. reflexivity.
  - reflexivity.
Defined.

(** ** Encoding and decoding back *)

(** X13.  Encoding then decoding keeps the seconds and nothing else.
    For every [Timestamp] that points to an instant, [UnmarshalJSON] of
    the text [MarshalJSON] produced succeeds and installs a fresh
    instant with the same Unix seconds, built by [time.Unix(sec, 0)]:
    its nanoseconds are zero and its zone is the local one, whatever
    those of the encoded instant were. *)
Theorem marshal_then_unmarshal_keeps_seconds
        (h h2 : list Time) (t t0 : Timestamp) (tm : Time) :
  deref h (timestamp t) = Done tm ->
  exists b tm',
    MarshalJSON h t = Done (b, None)
    /\ UnmarshalJSON h2 t0 b
       = (h2 ++ [tm'], mkTimestamp (Some (length h2)), None)
    /\ tm' = time_Unix (Time_Unix tm) 0
    /\ Time_Unix tm' = Time_Unix tm
    /\ wall tm' = 0 /\ loc tm' = Local.
Proof.
  intros D.
  assert (R : inInt64 (Time_Unix tm)) by (unfold Time_Unix; apply int64_range).
  exists (json_Marshal_TimestampJson (mkTimestampJson (Time_Unix tm))),
    (time_Unix (Time_Unix tm) 0).
  split; [unfold MarshalJSON; now rewrite D |]. split.
  - rewrite json_Marshal_object, <- (app_nil_r (timestampObject _ _ _)).
    now apply UnmarshalJSON_timestampObject.
  - split; [reflexivity |]. split; [now apply Time_Unix_time_Unix |].
    split; reflexivity.
Qed.

Lemma marshal_then_unmarshal_keeps_seconds_witness :
  exists b tm',
    MarshalJSON [time_Unix 7 500] (mkTimestamp (Some 0%nat)) = Done (b, None)
    /\ UnmarshalJSON [] (mkTimestamp None) b
       = ([tm'], mkTimestamp (Some 0%nat), None)
    /\ Time_Unix tm' = 7 /\ wall tm' = 0 /\ wall (time_Unix 7 500) = 500.
Proof.
  destruct (marshal_then_unmarshal_keeps_seconds
              [time_Unix 7 500] [] (mkTimestamp (Some 0%nat))
              (mkTimestamp None) (time_Unix 7 500) eq_refl)
    as (b & tm' & Hm & Hu & _ & Hs & Hw & _).
  exists b, tm'. repeat split; assumption.
Defined.

(** ** Writing then reading the cell *)

(** X14.  The cell gives back what was put in, unchecked.  With the
    permit free, [setData] of any [Timestamp] returns, leaves the
    permit free and the heap alone, and the [getData] that follows
    returns that very value.  Nothing checks the pointer: after a
    [Timestamp] with a nil pointer is stored, [getData] still returns,
    but [returnTimestamp] panics in the encoding and the client's fetch
    fails with a nil result. *)
Theorem setData_then_getData (v : Timestamp) (s : State) :
  l s = [] ->
  exists s',
    setData v s = Done s'
    /\ getData s' = Done (s', v)
    /\ heap s' = heap s
    /\ permit s' = Some FREE
    /\ (timestamp v = None ->
        returnTimestamp s' = Panic
        /\ getTimestampCall Delivered s'
           = Done (s', (None, Some TransportError))).
Proof.
  intros Hl. exists (assign v s).
  assert (Hl' : l (assign v s) = []) by exact Hl.
  split; [now apply setData_free |].
  split; [now apply getData_free |]. split; [reflexivity |].
  split; [unfold permit; now rewrite Hl' |].
  intros Hv.
  assert (P : returnTimestamp (assign v s) = Panic).
  { apply returnTimestamp_panics; [exact Hl' |].
    unfold storedSeconds. cbn. now rewrite Hv. }
  split; [exact P |]. rewrite getTimestampCall_unfold, P. reflexivity.
Qed.

Lemma setData_then_getData_witness :
  exists s',
    setData (mkTimestamp None) initialState = Done s'
    /\ getData s' = Done (s', mkTimestamp None)
    /\ returnTimestamp s' = Panic.
Proof.
  destruct (setData_then_getData (mkTimestamp None) initialState eq_refl)
    as (s' & H1 & H2 & _ & _ & H3).
  exists s'. split; [exact H1 |]. split; [exact H2 |].
  exact (proj1 (H3 eq_refl)).
Defined.

(** ** Concurrent callers: what is read was written *)

Lemma writes_insert (pre : list Goroutine) (g : Goroutine)
      (post : list Goroutine) :
  writes (pre ++ g :: post) = writes pre ++ written g ++ writes post.
Proof. unfold writes. rewrite flat_map_app. reflexivity. Qed.

(** What one step of a goroutine does to the cell and to its own
    record: it either leaves the cell alone, possibly noting the value
    it read, or it is the assignment of a [setData]. *)
Lemma gstep_trace (g g' : Goroutine) (s s' : State) :
  gstep g s = Done (g', s') ->
  heap s' = heap s
  /\ ((written g' = written g /\ data s' = data s
       /\ assignments s' = assignments s
       /\ (resultOf g' = resultOf g \/ resultOf g' = Some (data s)))
      \/ (exists v, written g = [] /\ written g' = [v] /\ data s' = v
                    /\ assignments s' = S (assignments s)
                    /\ resultOf g' = None)).
Proof.
  destruct g as [c p]. unfold gstep. cbn [pc call].
  destruct p as [| | r | r].
  - unfold send. destruct (length (l s) <? chanCap)%nat; cbn [bind];
      [| discriminate].
    intros E. inversion E; subst. split; [reflexivity |]. left.
    destruct c; cbn; auto.
  - destruct c as [| v]; intros E; inversion E; subst;
      (split; [reflexivity |]).
    + left. cbn. auto.
    + right. exists v. cbn. auto 6.
  - unfold recv. destruct (l s) as [| x q]; cbn [bind]; [discriminate |].
    intros E. inversion E; subst. split; [reflexivity |]. left.
    destruct c; cbn; auto.
  - discriminate.
Qed.

(** X15.  Under any interleaving, what is read was written.  In every
    world reachable by spawning calls of [getData] and [setData] and
    letting them step in any order: the heap is untouched; the number of
    assignments to [data] is the number of [setData] bodies executed;
    [data] is the initial value or one some [setData] was given; and so
    is every value a [getData] has read. *)
Theorem concurrent_reads_trace_to_writes (w : World) :
  reachable w ->
  heap (shared w) = heap initialState
  /\ assignments (shared w) = length (writes (pool w))
  /\ (data (shared w) = data initialState
      \/ In (data (shared w)) (writes (pool w)))
  /\ (forall g v, In g (pool w) -> resultOf g = Some v ->
                  v = data initialState \/ In v (writes (pool w))).
Proof.
  induction 1 as [| w w' _ (Hh & Ha & Hd & Hr) St].
  - cbn. split; [reflexivity |]. split; [reflexivity |].
    split; [left; reflexivity |]. intros g v [].
  - destruct St as [s gs c | s s' pre g g' post E]; cbn [shared pool] in *.
    + assert (W : writes (gs ++ [mkGoroutine c AtEntry]) = writes gs).
      { unfold writes. rewrite flat_map_app. cbn.
        destruct c; cbn; apply app_nil_r. }
      rewrite W. split; [exact Hh |]. split; [exact Ha |].
      split; [exact Hd |].
      intros g v Hin Hres. apply in_app_or in Hin.
      destruct Hin as [Hin | [<- | []]]; [eauto | discriminate].
    + rewrite writes_insert in Ha, Hd, Hr. rewrite writes_insert.
      destruct (gstep_trace _ _ _ _ E)
        as (Hheap & [(Hw & Hdat & Has & Hres)
                    | (v & Hw & Hw' & Hdat & Has & Hres)]).
      * rewrite Hw, Hheap, Hdat, Has. split; [exact Hh |].
        split; [exact Ha |]. split; [exact Hd |].
        intros g0 v0 Hin Hv. apply in_app_or in Hin.
        destruct Hin as [Hin | [<- | Hin]].
        -- apply (Hr g0 v0); [apply in_or_app; left; exact Hin | exact Hv].
        -- destruct Hres as [Hres | Hres].
           ++ apply (Hr g v0);
                [apply in_or_app; right; left; reflexivity | congruence].
           ++ rewrite Hres in Hv. inversion Hv; subst. exact Hd.
        -- apply (Hr g0 v0);
             [apply in_or_app; right; right; exact Hin | exact Hv].
      * rewrite Hw in Ha, Hd, Hr. rewrite Hw', Hheap, Has.
        cbn [app] in *.
        assert (M : forall x, In x (writes pre ++ writes post) ->
                              In x (writes pre ++ v :: writes post)).
        { intros x Hx. apply in_app_or in Hx. apply in_or_app.
          destruct Hx; [left | right; right]; assumption. }
        split; [exact Hh |].
        split; [rewrite length_app in *; cbn [length]; lia |].
        split; [right; apply in_or_app; right; left; now symmetry |].
        intros g0 v0 Hin Hv. apply in_app_or in Hin.
        destruct Hin as [Hin | [<- | Hin]].
        -- destruct (Hr g0 v0) as [-> | Hx];
             [apply in_or_app; left; exact Hin | exact Hv
             | left; reflexivity | right; apply M; exact Hx].
        -- congruence.
        -- destruct (Hr g0 v0) as [-> | Hx];
             [apply in_or_app; right; right; exact Hin | exact Hv
             | left; reflexivity | right; apply M; exact Hx].
Qed.

Lemma concurrent_reads_trace_to_writes_witness :
  In (data (assign (mkTimestamp None) (withChan [1] initialState)))
     (writes [mkGoroutine (CallSetData (mkTimestamp None)) (AtDefer None)])
  /\ assignments (assign (mkTimestamp None) (withChan [1] initialState))
     = 1%nat.
Proof.
  assert (R : reachable
                (mkWorld (assign (mkTimestamp None)
                                 (withChan [1] initialState))
                         [mkGoroutine (CallSetData (mkTimestamp None))
                                      (AtDefer None)])).
  { apply (reachable_step
             (mkWorld (withChan [1] initialState)
                      [mkGoroutine (CallSetData (mkTimestamp None)) InBody])).
    - apply (reachable_step
               (mkWorld initialState
                        [mkGoroutine (CallSetData (mkTimestamp None))
                                     AtEntry])).
      + apply (reachable_step initialWorld); [apply reachable_init |].
        apply (step_spawn initialState [] (CallSetData (mkTimestamp None))).
      + apply (step_run initialState (withChan [1] initialState) []
                        (mkGoroutine (CallSetData (mkTimestamp None)) AtEntry)
                        (mkGoroutine (CallSetData (mkTimestamp None)) InBody)
                        []).
        reflexivity.
    - apply (step_run (withChan [1] initialState)
                      (assign (mkTimestamp None) (withChan [1] initialState))
                      []
                      (mkGoroutine (CallSetData (mkTimestamp None)) InBody)
                      (mkGoroutine (CallSetData (mkTimestamp None))
                                   (AtDefer None))
                      []).
      reflexivity. }
  destruct (concurrent_reads_trace_to_writes _ R) as (_ & Ha & Hd & _).
  split.
  - destruct Hd as [Hd | Hd]; [discriminate Hd | exact Hd].
  - exact Ha.
Defined.

(** ** Concurrent callers: nobody waits for ever *)

Lemma holders_pos (gs : list Goroutine) :
  (1 <= holders gs)%nat -> exists h, In h gs /\ inside h = true.
Proof.
  unfold holders. intros H.
  destruct (filter inside gs) as [| h t] eqn:F; [cbn in H; lia |].
  assert (Hin : In h (filter inside gs)) by (rewrite F; left; reflexivity).
  apply filter_In in Hin. eauto.
Qed.

Lemma inside_moves (w : World) (h : Goroutine) :
  exclusive w -> In h (pool w) -> inside h = true ->
  exists h' s', gstep h (shared w) = Done (h', s').
Proof.
  intros [Hlen Hle] Hin Hi. pose proof (holders_in h _ Hin Hi) as H1.
  destruct h as [c p]. unfold gstep. cbn [pc call].
  unfold inside in Hi. cbn [pc] in Hi.
  destruct p as [| | r | r]; try discriminate.
  - destruct c; eauto.
  - unfold recv. destruct (l (shared w)) as [| x q]; [cbn in Hlen; lia |].
    cbn [bind]. eauto.
Qed.

(** A caller that has not returned moves, or waits at its entry for a
    holder that can move. *)
Lemma exclusive_progress (w : World) (g : Goroutine) :
  exclusive w -> In g (pool w) -> returned g = false ->
  (exists g' s', gstep g (shared w) = Done (g', s'))
  \/ (gstep g (shared w) = Blocked /\ pc g = AtEntry
      /\ permit (shared w) = Some HELD
      /\ exists h h' s', In h (pool w) /\ inside h = true
                         /\ gstep h (shared w) = Done (h', s')).
Proof.
  intros X Hin Hr. destruct (pc g) as [| | r | r] eqn:P.
  - destruct (l (shared w)) as [| x q] eqn:Hl.
    + left. unfold gstep, send. rewrite P, Hl. cbn. eauto.
    + right. destruct (exclusive_two_states w X) as [[F _] | [F H1]];
        unfold permit in F; rewrite Hl in F;
        [destruct q; discriminate |].
      split; [unfold gstep, send; rewrite P, Hl; destruct q; reflexivity |].
      split; [reflexivity |].
      split; [unfold permit; rewrite Hl; exact F |].
      destruct (holders_pos (pool w)) as (h & Hh & Hi); [lia |].
      destruct (inside_moves w h X Hh Hi) as (h' & s' & E). eauto 7.
  - left. apply (inside_moves w g X Hin). unfold inside. now rewrite P.
  - left. apply (inside_moves w g X Hin). unfold inside. now rewrite P.
  - unfold returned in Hr. rewrite P in Hr. discriminate.
Qed.



Lemma workLeft_insert (pre : list Goroutine) (g : Goroutine)
      (post : list Goroutine) :
  workLeft (pre ++ g :: post) = (workLeft pre + work g + workLeft post)%nat.
Proof.
  unfold workLeft.
  induction pre as [| a pre IH]; cbn [app fold_right];
    [lia | rewrite IH; lia].
Qed.

Lemma gstep_work (g g' : Goroutine) (s s' : State) :
  gstep g s = Done (g', s') -> work g = S (work g').
Proof.
  intros E. unfold work.
  destruct (gstep_cases g g' s s' E)
    as [(P & P' & _) | [(P & (r & P') & _) | (r & v & P & P' & _)]];
    rewrite P, P'; reflexivity.
Qed.

Lemma workLeft_zero (gs : list Goroutine) :
  workLeft gs = 0%nat -> forallb returned gs = true /\ holders gs = 0%nat.
Proof.
  induction gs as [| g gs IH]; [auto |].
  cbn [workLeft fold_right forallb]. rewrite holders_cons.
  unfold work, returned, inside. fold (workLeft gs).
  destruct (pc g); intros H; try lia.
  destruct (IH H) as [Hall H0]. rewrite H0. auto.
Qed.

Lemma workLeft_pos (gs : list Goroutine) (n : nat) :
  workLeft gs = S n -> exists g, In g gs /\ returned g = false.
Proof.
  induction gs as [| g gs IH]; [discriminate |].
  cbn [workLeft fold_right]. fold (workLeft gs).
  destruct (returned g) eqn:Hr.
  - unfold work. unfold returned in Hr. destruct (pc g); try discriminate.
    intros H. destruct (IH H) as (g0 & Hin & H0). exists g0. split;
      [right; exact Hin | exact H0].
  - intros _. exists g. split; [left; reflexivity | exact Hr].
Qed.

Lemma runs_to_end (n : nat) :
  forall w,
    workLeft (pool w) = n -> exclusive w ->
    exists w',
      runs w w' /\ forallb returned (pool w') = true
      /\ permit (shared w') = Some FREE
      /\ map call (pool w') = map call (pool w).
Proof.
  induction n as [| n IH]; intros w Hn X.
  - exists w. destruct (workLeft_zero _ Hn) as [Hall H0].
    split; [apply runs_refl |]. split; [exact Hall |]. split; [| reflexivity].
    destruct (exclusive_two_states w X) as [[F _] | [_ H1]];
      [exact F | lia].
  - destruct (workLeft_pos _ _ Hn) as (g & Hin & Hr).
    assert (Mv : exists h h' s',
               In h (pool w) /\ gstep h (shared w) = Done (h', s')).
    { destruct (exclusive_progress w g X Hin Hr)
        as [(g' & s' & E) | (_ & _ & _ & h & h' & s' & Hh & _ & E)]; eauto. }
    destruct Mv as (h & h' & s' & Hh & E).
    apply in_split in Hh. destruct Hh as (pre & post & Hp).
    destruct w as [s gs]. cbn [shared pool] in *. subst gs.
    assert (St : step (mkWorld s (pre ++ h :: post))
                      (mkWorld s' (pre ++ h' :: post)))
      by (apply step_run; exact E).
    destruct (IH (mkWorld s' (pre ++ h' :: post))) as (w' & Rn & Hall & F & C).
    + cbn [pool]. rewrite workLeft_insert in *.
      rewrite (gstep_work _ _ _ _ E) in Hn. lia.
    + exact (proj1 (step_exclusive _ _ X St)).
    + exists w'. split; [exact (runs_step _ _ _ _ _ _ _ E Rn) |].
      split; [exact Hall |]. split; [exact F |].
      rewrite C. cbn [pool]. rewrite !map_app. cbn [map].
      unfold gstep in E.
      destruct (pc h); [destruct (send 1 s) | destruct (call h)
                        | destruct (recv s) as [[x q] | |] |];
        cbn [bind] in E; try discriminate; inversion E; reflexivity.
Qed.

Lemma runs_reachable (w w' : World) : runs w w' -> reachable w -> reachable w'.
Proof.
  induction 1 as [w | s s' pre g g' post w' E _ IH]; intros R; [exact R |].
  apply IH. apply (reachable_step _ _ R). apply step_run. exact E.
Qed.

(** X17.  Every call can run to its return.  From any reachable world,
    without any new call, the calls in flight can be scheduled so that
    all of them return; the world reached is reachable, holds the same
    calls, and its permit is free again. *)
Theorem callers_can_all_return (w : World) :
  reachable w ->
  exists w',
    runs w w' /\ reachable w'
    /\ forallb returned (pool w') = true
    /\ permit (shared w') = Some FREE
    /\ map call (pool w') = map call (pool w).
Proof.
  intros R.
  destruct (runs_to_end (workLeft (pool w)) w eq_refl
                        (reachable_exclusive w R))
    as (w' & Rn & Hall & F & C).
  exists w'. split; [exact Rn |].
  split; [exact (runs_reachable w w' Rn R) |]. auto.
Qed.

Lemma callers_can_all_return_witness :
  exists w',
    runs (mkWorld initialState [mkGoroutine CallGetData AtEntry]) w'
    /\ forallb returned (pool w') = true
    /\ permit (shared w') = Some FREE.
Proof.
  assert (R : reachable (mkWorld initialState
                                 [mkGoroutine CallGetData AtEntry])).
  { apply (reachable_step initialWorld); [apply reachable_init |].
    apply (step_spawn initialState [] CallGetData). }
  destruct (callers_can_all_return _ R) as (w' & Rn & _ & Hall & F & _).
  exists w'. split; [exact Rn |]. split; [exact Hall | exact F].
Defined.

(** ** The tests of the repository *)

Lemma setTimestampCallStr_accepted (raw : string) (s : State) (n : Z) :
  l s = [] -> decodeSeconds (rawBody raw) = Some n ->
  setTimestampCallStr raw Delivered s
  = Done (stored n s, (Some (RespBody okResponse), None)).
Proof.
  intros Hl D. unfold setTimestampCallStr, roundTrip.
  rewrite handleRequests_post, (storeTimestamp_accepted s _ n Hl D).
  reflexivity.
Qed.

Lemma setTimestampCallStr_refused (raw : string) (s : State) :
  decodeSeconds (rawBody raw) = None ->
  setTimestampCallStr raw Delivered s
  = Done (s, (Some (RespBody rejection), Some UnexpectedStatus)).
Proof.
  intros D. unfold setTimestampCallStr, roundTrip.
  rewrite handleRequests_post, (storeTimestamp_refused s _ D). reflexivity.
Qed.

Lemma last_cons_default (ts : list Z) :
  forall x d, last (x :: ts) d = last ts x.
Proof.
  induction ts as [| y ts IH]; intros x d; [reflexivity |].
  change (last (x :: y :: ts) d) with (last (y :: ts) d).
  now rewrite !IH.
Qed.

(** X18.  [TestSetAndGet] passes on every list of [int64] values.  From
    a server with a free permit, each round stores the value and reads
    it back: the loop ends without raising the failure flag, for any
    inputs and not only the eight of the test; afterwards the server
    holds the last input, and one assignment was made per input. *)
Theorem TestSetAndGet_passes_on_every_int64
        (testTimestamps : list Z) (s : State) (cur : Z) (failed : bool) :
  Forall inInt64 testTimestamps -> l s = [] -> storedSeconds s = Some cur ->
  exists s',
    TestSetAndGet_loop testTimestamps s failed = Done (s', failed)
    /\ l s' = []
    /\ storedSeconds s' = Some (last testTimestamps cur)
    /\ assignments s' = (assignments s + length testTimestamps)%nat.
Proof.
  intros F. revert s cur failed.
  induction F as [| x ts Hx F IH]; intros s cur failed Hl C.
  - exists s. cbn. rewrite Nat.add_0_r. auto.
  - cbn [TestSetAndGet_loop].
    rewrite (setTimestampCall_free x s Hl Hx). cbn [bind isSome].
    rewrite (getTimestampCall_storedSeconds
               (stored x s) x Hl (storedSeconds_stored x s Hx)).
    cbn [bind isSome]. rewrite Z.eqb_refl, !orb_false_r.
    destruct (IH (stored x s) x failed Hl (storedSeconds_stored x s Hx))
      as (s' & E & Hl' & C' & A).
    exists s'. split; [exact E |]. split; [exact Hl' |].
    split; [now rewrite last_cons_default |].
    rewrite A. cbn [length stored assign assignments withHeap]. lia.
Qed.

Lemma TestSetAndGet_passes_on_every_int64_witness :
  exists s',
    TestSetAndGet_body initialState = Done (s', false)
    /\ storedSeconds s' = Some 1906357250
    /\ assignments s' = 8%nat.
Proof.
  assert (F : Forall inInt64
                     [-1906357250; -100; -50; 0; 25; 75; 1622366082;
                      1906357250]).
  { repeat (apply Forall_cons || apply Forall_nil);
      (split; [intros K; discriminate K | reflexivity]). }
  destruct (TestSetAndGet_passes_on_every_int64
              _ initialState initialUnixTimestamp false F eq_refl eq_refl)
    as (s' & E & _ & C & A).
  exists s'. split; [exact E |]. split; [exact C | exact A].
Defined.

Lemma TestSetAndGetNegative_loop_flag (testTimestamps : list string) :
  forall s cur ref failed,
    l s = [] -> storedSeconds s = Some cur ->
    (failed = false -> cur = ref) ->
    exists s',
      TestSetAndGetNegative_loop testTimestamps (Some ref) s failed
      = Done (s', failed
                  || negb (forallb (fun raw => malformed (rawBody raw))
                                   testTimestamps))
      /\ (forallb (fun raw => malformed (rawBody raw)) testTimestamps = true
          -> s' = s).
Proof.
  induction testTimestamps as [| raw rest IH]; intros s cur ref failed Hl C I.
  - exists s. cbn. rewrite orb_false_r. auto.
  - cbn [TestSetAndGetNegative_loop forallb].
    rewrite malformed_decodeSeconds.
    destruct (decodeSeconds (rawBody raw)) as [n |] eqn:D.
    + rewrite (setTimestampCallStr_accepted raw s n Hl D).
      cbn [bind isSome negb].
      pose proof (decodeSeconds_range _ _ D) as R.
      rewrite (getTimestampCall_storedSeconds
                 (stored n s) n Hl (storedSeconds_stored n s R)).
      cbn [bind isSome]. rewrite orb_true_r. cbn [orb andb].
      destruct (IH (stored n s) n ref true Hl (storedSeconds_stored n s R))
        as (s' & E & _); [discriminate |].
      exists s'. rewrite E. cbn [orb]. rewrite orb_true_r.
      split; [reflexivity | discriminate].
    + rewrite (setTimestampCallStr_refused raw s D).
      cbn [bind isSome negb].
      rewrite (getTimestampCall_storedSeconds s cur Hl C).
      cbn [bind isSome negb andb]. rewrite !orb_false_r.
      destruct failed.
      * cbn [orb].
        destruct (IH s cur ref true Hl C) as (s' & E & U); [discriminate |].
        exists s'. split; [exact E | exact U].
      * rewrite (I eq_refl), Z.eqb_refl. cbn [orb negb].
        destruct (IH s cur ref false Hl C) as (s' & E & U); [exact I |].
        exists s'. split; [exact E | exact U].
Qed.

(** X19.  [TestSetAndGetNegative] passes exactly when every input is
    refused.  For any list of input texts, run against a server with a
    free permit and a stored instant, the test returns, and its failure
    flag is raised exactly when some input makes a body that decodes;
    when all inputs are malformed the server state at the end is the
    state at the start. *)
Theorem TestSetAndGetNegative_passes_iff_all_refused
        (testTimestamps : list string) (s : State) (cur : Z) :
  l s = [] -> storedSeconds s = Some cur ->
  exists s',
    TestSetAndGetNegative_on testTimestamps s
    = Done (s', negb (forallb (fun raw => malformed (rawBody raw))
                              testTimestamps))
    /\ (forallb (fun raw => malformed (rawBody raw)) testTimestamps = true
        -> s' = s).
Proof.
  intros Hl C. unfold TestSetAndGetNegative_on.
  rewrite (getTimestampCall_storedSeconds s cur Hl C). cbn [bind isSome].
  destruct (TestSetAndGetNegative_loop_flag testTimestamps s cur cur false
                                            Hl C (fun _ => eq_refl))
    as (s' & E & U).
  exists s'. split; [exact E | exact U].
Qed.

Lemma TestSetAndGetNegative_passes_iff_all_refused_witness :
  TestSetAndGetNegative_body initialState = Done (initialState, false)
  /\ exists s',
      TestSetAndGetNegative_on ["apple"; "25"]%string initialState
      = Done (s', true).
Proof.
  split.
  - destruct (TestSetAndGetNegative_passes_iff_all_refused
                negativeInputs initialState initialUnixTimestamp
                eq_refl eq_refl) as (s' & E & U).
    assert (M : forallb (fun raw => malformed (rawBody raw)) negativeInputs
                = true) by (vm_compute; reflexivity).
    rewrite M in E. rewrite (U M) in E. exact E.
  - destruct (TestSetAndGetNegative_passes_iff_all_refused
                ["apple"; "25"]%string initialState initialUnixTimestamp
                eq_refl eq_refl) as (s' & E & _).
    exists s'. exact E.
Defined.


(** X21.  The helper of the tests is [setTimestampCall] on decimal
    texts.  Given the decimal text of an integer, [setTimestampCallStr]
    sends the same body and returns the same result as
    [setTimestampCall] of that integer, whatever the network does and
    whatever the server state. *)
Theorem setTimestampCallStr_agrees_on_decimal (x : Z) (n : Net) (s : State) :
  rawBody (string_of_list_ascii (FormatInt x)) = setTimestampBody x
  /\ setTimestampCallStr (string_of_list_ascii (FormatInt x)) n s
     = setTimestampCall x n s.
Proof.
  assert (B : rawBody (string_of_list_ascii (FormatInt x))
              = setTimestampBody x).
  { unfold rawBody, setTimestampBody, bytesOf.
    now rewrite list_ascii_of_string_of_list_ascii. }
  split; [exact B |]. unfold setTimestampCallStr, setTimestampCall.
  now rewrite B.
Qed.
